(** * Test-automation agent: extraction engine, test-matrix synthesizer, differ

    A shallow embedding of the Python sources

    - [agent/template_generator.py]  (module [Template] below),
    - [agent/scanner.py]             (module [Scanner]),
    - [agent/orchestrator.py]        (module [Orchestrator], [scan_for_changes];
                                      module [Generation], [_generate_test] and
                                      [generate_for_operations]),
    - [agent/llm_client.py]          (module [Generation], [generate_tests]),
    - [agent/watcher.py]             (module [Generation], the snapshot handed
                                      to [scan_for_changes]),

    together with the properties of the natural-language specification that
    are stated about them, and further properties read off the sources.

    Conventions.  Python text is a [string] of bytes (UTF-8).  A function that
    can raise returns a [result]; a method that mutates [self] returns the new
    object next to its result.  What the sources obtain from the Python
    standard library or from the operating system (the file system, [ast.parse],
    [ast.walk], [re.findall], [str.upper], [repr]) is a field of an explicit
    record ([Runtime], [World]) so that every definition below stays executable
    once such a record is supplied.  What the sources write to the terminal
    ([print], [console.print]) is left out. *)

From Stdlib Require Import String Ascii List ZArith Bool Arith Lia DecimalString.
Import ListNotations.
Open Scope string_scope.

Set Implicit Arguments.
Set Warnings "-register-all".

(* ===================================================================== *)
(** * Python values shared by the three modules *)
(* ===================================================================== *)

Module Py.

(** The exceptions the modelled code can raise. *)
Inductive exn : Type :=
| AttributeError
| TypeError
| SyntaxError
| OSError.

Inductive result (A : Type) : Type :=
| Ok (a : A)
| Raise (e : exn).

Arguments Ok {A} a.
Arguments Raise {A} e.

Definition bind {A B : Type} (r : result A) (k : A -> result B) : result B :=
  match r with
  | Ok a => k a
  | Raise e => Raise e
  end.

Definition raises {A : Type} (r : result A) : bool :=
  match r with
  | Ok _ => false
  | Raise _ => true
  end.

(** Literal constants: the values an [ast.Constant] node carries and the
    leaves of the dictionaries handed to the generator.  Floats, bytes,
    complex numbers and [Ellipsis] are left out. *)
Inductive constant : Type :=
| CNone
| CBool (b : bool)
| CInt (z : Z)
| CStr (s : string).

Definition Z_of_bool (b : bool) : Z := if b then 1%Z else 0%Z.

(** Python [==] on constants.  [bool] is a subclass of [int]:
    [True == 1] and [False == 0]. *)
Definition const_eqb (c d : constant) : bool :=
  match c, d with
  | CNone, CNone => true
  | CBool a, CBool b => Bool.eqb a b
  | CBool a, CInt z => Z.eqb (Z_of_bool a) z
  | CInt z, CBool a => Z.eqb z (Z_of_bool a)
  | CInt y, CInt z => Z.eqb y z
  | CStr s, CStr t => String.eqb s t
  | _, _ => false
  end.

(** Python truth value of a constant. *)
Definition const_truthy (c : constant) : bool :=
  match c with
  | CNone => false
  | CBool b => b
  | CInt z => negb (Z.eqb z 0)
  | CStr s => negb (String.eqb s "")
  end.

(** Python [str(c)]. *)
Definition const_str (c : constant) : string :=
  match c with
  | CNone => "None"
  | CBool true => "True"
  | CBool false => "False"
  | CInt z => NilZero.string_of_int (Z.to_int z)
  | CStr s => s
  end.

(** A Python [dict] whose keys are strings, in insertion order.  The keys of
    a dictionary are pairwise distinct; [dict_get] returns the first entry. *)
Definition dict (V : Type) : Type := list (string * V).

Fixpoint dict_get {V : Type} (k : string) (d : dict V) : option V :=
  match d with
  | [] => None
  | (k', v) :: rest => if String.eqb k k' then Some v else dict_get k rest
  end.

(** [d.get(k, default)] *)
Definition dict_get_default {V : Type} (k : string) (default : V) (d : dict V) : V :=
  match dict_get k d with
  | Some v => v
  | None => default
  end.

(** Values: constants, lists, string-keyed dictionaries and plain objects
    that only carry data attributes (instances of a dataclass). *)
Inductive pyval : Type :=
| VConst (c : constant)
| VList (items : list pyval)
| VDict (entries : list (string * pyval))
| VObject (attrs : list (string * pyval)).

Definition is_dict (v : pyval) : bool :=
  match v with
  | VDict _ => true
  | _ => false
  end.

(** Python truth value. An object without [__bool__] or [__len__] is true. *)
Definition truthy (v : pyval) : bool :=
  match v with
  | VConst c => const_truthy c
  | VList l => match l with [] => false | _ => true end
  | VDict d => match d with [] => false | _ => true end
  | VObject _ => true
  end.

(** Python [==].  Lists compare element by element, dictionaries entry by
    entry whatever their order, dataclass instances field by field. *)
Fixpoint py_equal (a b : pyval) {struct a} : bool :=
  match a, b with
  | VConst c, VConst d => const_eqb c d
  | VList xs, VList ys =>
      (fix items (xs ys : list pyval) {struct xs} : bool :=
         match xs, ys with
         | [], [] => true
         | x :: xs', y :: ys' => py_equal x y && items xs' ys'
         | _, _ => false
         end) xs ys
  | VDict d1, VDict d2 =>
      Nat.eqb (List.length d1) (List.length d2)
      && (fix entries (d : list (string * pyval)) {struct d} : bool :=
            match d with
            | [] => true
            | (k, v) :: d' =>
                match dict_get k d2 with
                | Some w => py_equal v w
                | None => false
                end && entries d'
            end) d1
  | VObject f1, VObject f2 =>
      (fix fields (f g : list (string * pyval)) {struct f} : bool :=
         match f, g with
         | [], [] => true
         | (k, v) :: f', (k', w) :: g' =>
             String.eqb k k' && py_equal v w && fields f' g'
         | _, _ => false
         end) f1 f2
  | _, _ => false
  end.

(** ** String methods *)

Definition nl : string := String (ascii_of_nat 10) EmptyString.

(** [s.replace(old, new)] for one-character [old] and [new]. *)
Fixpoint replace_char (old new : ascii) (s : string) : string :=
  match s with
  | EmptyString => EmptyString
  | String c rest =>
      String (if Ascii.eqb c old then new else c) (replace_char old new rest)
  end.

(** [s.lstrip(c)] for a one-character [c]. *)
Fixpoint lstrip_char (c : ascii) (s : string) : string :=
  match s with
  | EmptyString => EmptyString
  | String c' rest => if Ascii.eqb c' c then lstrip_char c rest else s
  end.

(** [s.startswith(p)] *)
Definition startswith (p s : string) : bool := String.prefix p s.

Definition concat_strings (l : list string) : string := String.concat "" l.

End Py.

(* ===================================================================== *)
(** * agent/template_generator.py *)
(* ===================================================================== *)

Module Template.
Import Py.

(** What the template engine takes from the Python runtime: [str.upper] and
    [str.lower] (Unicode aware, hence not defined on bytes here) and the
    [str()] of a value that is not a constant. *)
Record Runtime : Type := {
  str_upper : string -> string;
  str_lower : string -> string;
  py_repr : pyval -> string
}.

(** One block of the [*** Test Cases ***] section: the title line, the
    [[Documentation]] line, the [[Tags]] line, the arguments of the
    [Run Process] line after [${SERVICE_CONSOLE}], and the remaining lines. *)
Record TestCase : Type := {
  title : string;
  documentation : string;
  tags : list string;
  invocation : list string;
  checks : list string
}.

(** The rendered template is a sequence of literal text and test-case
    blocks. *)
Inductive segment : Type :=
| Text (s : string)
| Case (tc : TestCase).

(** Cells of a Robot Framework line are separated by four spaces. *)
Definition sep : string := "    ".

Definition cells (l : list string) : string :=
  concat_strings (map (fun c => sep ++ c) l).

Definition render_case (tc : TestCase) : string :=
  title tc ++ nl
  ++ "    [Documentation]    " ++ documentation tc ++ nl
  ++ "    [Tags]" ++ cells (tags tc) ++ nl
  ++ "    ${result}=    Run Process    ${SERVICE_CONSOLE}" ++ cells (invocation tc) ++ nl
  ++ concat_strings (map (fun c => sep ++ c ++ nl) (checks tc)).

Definition render_segment (s : segment) : string :=
  match s with
  | Text t => t
  | Case tc => render_case tc
  end.

Definition cases_of (segs : list segment) : list TestCase :=
  flat_map (fun s => match s with Case tc => [tc] | Text _ => [] end) segs.

Definition lines (l : list string) : string :=
  concat_strings (map (fun x => x ++ nl) l).

Definition rule : string :=
  "# ============================================================".

Definition rc_is_zero : string := "Should Be Equal As Integers    ${result.rc}    0".
Definition rc_not_zero : string := "Should Not Be Equal As Integers    ${result.rc}    0".

Section Rendering.

Variable rt : Runtime.

(** [str(v)] *)
Definition py_str (v : pyval) : string :=
  match v with
  | VConst c => const_str c
  | _ => py_repr rt v
  end.

(** ** Jinja2 expressions

    The value of [arg.name] for a dictionary [arg] is [arg["name"]], or the
    [Undefined] object when the key is missing; [Undefined] is [None] here. *)
Definition field (arg : dict pyval) (k : string) : option pyval := dict_get k arg.

(** [{{ x }}]: [str(x)]; [Undefined] prints as the empty string. *)
Definition jstr (x : option pyval) : string :=
  match x with
  | Some v => py_str v
  | None => ""
  end.

Definition jtruthy (x : option pyval) : bool :=
  match x with
  | Some v => truthy v
  | None => false
  end.

(** [x == y]; two [Undefined] are equal, [Undefined] equals nothing else. *)
Definition jeq (x y : option pyval) : bool :=
  match x, y with
  | Some v, Some w => py_equal v w
  | None, None => true
  | _, _ => false
  end.

(** [{{ op_name | lower }}] *)
Definition lower_name (op_name : pyval) : string := str_lower rt (py_str op_name).

(** [--{{ arg.name | replace('_', '-') }}] *)
Definition flag (arg : dict pyval) : string :=
  "--" ++ replace_char "_" "-" (jstr (field arg "name")).

(** [${DEFAULT_{{ arg.name | upper }}}] *)
Definition default_var (arg : dict pyval) : string :=
  "${DEFAULT_" ++ str_upper rt (jstr (field arg "name")) ++ "}".

(** [{{ arg.default or 'test-value' }}] *)
Definition default_or_placeholder (arg : dict pyval) : string :=
  if jtruthy (field arg "default") then jstr (field arg "default") else "test-value".

(** [{% for arg in required_args %}    --name    ${DEFAULT_NAME}{% endfor %}] *)
Definition with_defaults (required_args : list (dict pyval)) : list string :=
  flat_map (fun a => [flag a; default_var a]) required_args.

(** [{% for arg in args if arg.arg_type == 'int' %}] *)
Definition is_int_arg (arg : dict pyval) : bool :=
  jeq (field arg "arg_type") (Some (VConst (CStr "int"))).

(** ** The test cases of [ROBOT_TEMPLATE] *)

Definition smoke_test (op_name : pyval) (required_args : list (dict pyval)) : TestCase :=
  {| title := py_str op_name ++ " Smoke Test";
     documentation := "Verify " ++ py_str op_name
                      ++ " operation runs successfully with valid arguments";
     tags := ["smoke"; "positive"; lower_name op_name];
     invocation := ["run"; py_str op_name] ++ with_defaults required_args ++ ["--dry-run"];
     checks := [rc_is_zero; "Should Contain    ${result.stdout}    " ++ py_str op_name] |}.

Definition dry_run_test (op_name : pyval) (required_args : list (dict pyval)) : TestCase :=
  {| title := py_str op_name ++ " With Dry Run Flag";
     documentation := "Verify " ++ py_str op_name ++ " operation works with --dry-run flag";
     tags := ["positive"; "dry_run"; lower_name op_name];
     invocation := ["run"; py_str op_name] ++ with_defaults required_args ++ ["--dry-run"];
     checks := [rc_is_zero; "Should Contain    ${result.stdout}    DRY RUN"] |}.

Definition timeout_test (op_name : pyval) (required_args : list (dict pyval)) : TestCase :=
  {| title := py_str op_name ++ " With Custom Timeout";
     documentation := "Verify " ++ py_str op_name ++ " operation accepts custom timeout";
     tags := ["positive"; lower_name op_name];
     invocation := ["run"; py_str op_name] ++ with_defaults required_args
                   ++ ["--timeout"; "60"; "--dry-run"];
     checks := [rc_is_zero] |}.

Definition optional_arg_test (op_name : pyval) (required_args : list (dict pyval))
    (arg : dict pyval) : TestCase :=
  {| title := py_str op_name ++ " With Optional Arg " ++ jstr (field arg "name");
     documentation := "Verify " ++ py_str op_name ++ " works with optional argument "
                      ++ flag arg;
     tags := ["positive"; lower_name op_name];
     invocation := ["run"; py_str op_name] ++ with_defaults required_args
                   ++ [flag arg; default_or_placeholder arg; "--dry-run"];
     checks := [rc_is_zero] |}.

(** [{% for other in required_args if other.name != arg.name %}] *)
Definition others (required_args : list (dict pyval)) (arg : dict pyval) : list (dict pyval) :=
  filter (fun other => negb (jeq (field other "name") (field arg "name"))) required_args.

Definition missing_required_test (op_name : pyval) (required_args : list (dict pyval))
    (arg : dict pyval) : TestCase :=
  {| title := py_str op_name ++ " Fails Without Required Arg " ++ jstr (field arg "name");
     documentation := "Verify " ++ py_str op_name ++ " fails when required argument "
                      ++ flag arg ++ " is missing";
     tags := ["negative"; lower_name op_name];
     invocation := ["run"; py_str op_name] ++ with_defaults (others required_args arg);
     checks := [rc_not_zero; "Should Contain    ${result.stderr}    Error"] |}.

Definition unknown_operation_test (op_name : pyval) : TestCase :=
  {| title := py_str op_name ++ " Fails With Unknown Operation Name";
     documentation := "Verify service-console rejects unknown operation names";
     tags := ["negative"; lower_name op_name];
     invocation := ["run"; "Invalid_Operation_XYZ"];
     checks := [rc_not_zero; "Should Contain    ${result.stderr}    Unknown operation"] |}.

Definition empty_operation_test (op_name : pyval) : TestCase :=
  {| title := py_str op_name ++ " Fails With Empty Operation Name";
     documentation := "Verify service-console handles empty operation name";
     tags := ["negative"; "edge_case"; lower_name op_name];
     invocation := ["run"];
     checks := [rc_not_zero] |}.

Definition empty_value_test (op_name : pyval) (arg : dict pyval) : TestCase :=
  {| title := py_str op_name ++ " Fails With Empty Value For " ++ jstr (field arg "name");
     documentation := "Verify " ++ py_str op_name ++ " rejects empty value for " ++ flag arg;
     tags := ["negative"; "edge_case"; lower_name op_name];
     invocation := ["run"; py_str op_name; flag arg; "${EMPTY}"];
     checks := [rc_not_zero] |}.

Definition non_numeric_test (op_name : pyval) (required_args : list (dict pyval))
    (arg : dict pyval) : TestCase :=
  {| title := py_str op_name ++ " Fails With Non Numeric " ++ jstr (field arg "name");
     documentation := "Verify " ++ py_str op_name ++ " rejects non-numeric value for "
                      ++ flag arg;
     tags := ["negative"; lower_name op_name];
     invocation := ["run"; py_str op_name] ++ with_defaults required_args
                   ++ [flag arg; "not_a_number"];
     checks := [rc_not_zero] |}.

Definition negative_value_test (op_name : pyval) (required_args : list (dict pyval))
    (arg : dict pyval) : TestCase :=
  {| title := py_str op_name ++ " Fails With Negative " ++ jstr (field arg "name");
     documentation := "Verify " ++ py_str op_name ++ " rejects negative value for "
                      ++ flag arg;
     tags := ["negative"; "edge_case"; lower_name op_name];
     invocation := ["run"; py_str op_name] ++ with_defaults required_args
                   ++ [flag arg; "-1"];
     checks := [rc_not_zero] |}.

Definition special_characters_test (op_name : pyval) (arg : dict pyval) : TestCase :=
  {| title := py_str op_name ++ " With Special Characters In " ++ jstr (field arg "name");
     documentation := "Verify " ++ py_str op_name ++ " handles special characters in "
                      ++ flag arg;
     tags := ["edge_case"; lower_name op_name];
     invocation := ["run"; py_str op_name; flag arg; "t€st!@#$%"];
     checks := ["# Should either succeed or fail gracefully (no crash)";
                "Should Be True    ${result.rc} >= 0"] |}.

Definition help_flag_test (op_name : pyval) : TestCase :=
  {| title := py_str op_name ++ " Help Flag";
     documentation := "Verify --help flag works for the run command";
     tags := ["positive"; lower_name op_name];
     invocation := ["run"; "--help"];
     checks := [rc_is_zero; "Should Contain    ${result.stdout}    " ++ py_str op_name] |}.

(** ** The template text

    [{% for %}] and [{% endfor %}] stand on lines of their own and whitespace
    control is off: every iteration of a loop starts with the line break that
    follows the [for] tag, and a line break follows every [endfor] tag.  The
    last line break of the template source is dropped by [Template(...)]. *)

Definition settings (op_name : pyval) : string :=
  lines ["*** Settings ***";
         "Documentation     Test suite for " ++ py_str op_name ++ " operation";
         "Library           Process";
         "Library           OperatingSystem";
         "Library           String";
         "Suite Setup       Verify Service Console Is Available";
         "Suite Teardown    Cleanup Test Artifacts";
         "";
         "*** Variables ***";
         "${SERVICE_CONSOLE}    service-console";
         "${TIMEOUT}            120"].

Definition variable_line (arg : dict pyval) : string :=
  nl ++ default_var arg ++ sep ++ default_or_placeholder arg ++ nl.

Definition banner (name : string) : string :=
  lines [rule; "# " ++ name; rule; ""].

Definition keywords : string :=
  lines ["*** Keywords ***";
         "Verify Service Console Is Available";
         "    [Documentation]    Verify the service-console CLI is installed and accessible";
         "    ${result}=    Run Process    ${SERVICE_CONSOLE}    --version";
         "    Should Be Equal As Integers    ${result.rc}    0";
         "    Log    Service console version: ${result.stdout}";
         "";
         "Cleanup Test Artifacts";
         "    [Documentation]    Clean up any test artifacts created during the test run"]
  ++ "    Log    Cleanup complete".

(** One iteration of a [for] loop around a single test case. *)
Definition looped (tc : TestCase) : list segment := [Text nl; Case tc; Text nl].

(** [ROBOT_TEMPLATE], as the sequence of its rendered pieces. *)
Definition template_segments (op_name : pyval)
    (args required_args optional_args : list (dict pyval)) : list segment :=
  [Text (settings op_name)]
  ++ map (fun arg => Text (variable_line arg)) args
  ++ [Text (nl ++ nl ++ "*** Test Cases ***" ++ nl ++ banner "POSITIVE TESTS");
      Case (smoke_test op_name required_args); Text nl;
      Case (dry_run_test op_name required_args); Text nl;
      Case (timeout_test op_name required_args); Text nl]
  ++ flat_map (fun arg => looped (optional_arg_test op_name required_args arg)) optional_args
  ++ [Text (nl ++ banner "NEGATIVE TESTS")]
  ++ flat_map (fun arg => looped (missing_required_test op_name required_args arg)) required_args
  ++ [Text nl;
      Case (unknown_operation_test op_name); Text nl;
      Case (empty_operation_test op_name); Text nl]
  ++ flat_map (fun arg => looped (empty_value_test op_name arg)) required_args
  ++ [Text nl]
  ++ flat_map (fun arg => [Text nl; Case (non_numeric_test op_name required_args arg);
                           Text nl; Case (negative_value_test op_name required_args arg);
                           Text nl])
              (filter is_int_arg args)
  ++ [Text (nl ++ banner "EDGE CASE TESTS")]
  ++ flat_map (fun arg => looped (special_characters_test op_name arg)) required_args
  ++ [Text nl;
      Case (help_flag_test op_name); Text nl;
      Text keywords].

(** [ROBOT_TEMPLATE.render(op_name=..., args=..., required_args=..., optional_args=...)] *)
Definition render (op_name : pyval)
    (args required_args optional_args : list (dict pyval)) : string :=
  concat_strings (map render_segment (template_segments op_name args required_args optional_args)).

(** ** [TemplateGenerator.generate] *)

(** [for a in args]: a list yields its items, a dictionary its keys, a string
    its characters; [None], a number or a plain object is not iterable. *)
Fixpoint characters (s : string) : list pyval :=
  match s with
  | EmptyString => []
  | String c rest => VConst (CStr (String c EmptyString)) :: characters rest
  end.

Definition py_iter (v : pyval) : result (list pyval) :=
  match v with
  | VList items => Ok items
  | VDict entries => Ok (map (fun kv => VConst (CStr (fst kv))) entries)
  | VConst (CStr s) => Ok (characters s)
  | VConst _ => Raise TypeError
  | VObject _ => Raise TypeError
  end.

(** [a.get(key, default)].  Only a dictionary has the method; on an object
    the attribute [get] is missing, or is data and cannot be called. *)
Definition py_get (a : pyval) (key : string) (default : pyval) : result pyval :=
  match a with
  | VDict entries => Ok (dict_get_default key default entries)
  | VObject attrs =>
      match dict_get "get" attrs with
      | Some _ => Raise TypeError
      | None => Raise AttributeError
      end
  | VConst _ => Raise AttributeError
  | VList _ => Raise AttributeError
  end.

(** [a.get("required", False) or (isinstance(a, dict) and a.get("required", False))] *)
Definition is_required (a : pyval) : result bool :=
  bind (py_get a "required" (VConst (CBool false))) (fun r =>
  if truthy r then Ok true
  else if is_dict a
       then bind (py_get a "required" (VConst (CBool false))) (fun r' => Ok (truthy r'))
       else Ok false).

(** [not (a.get("required", False) if isinstance(a, dict) else False)] *)
Definition is_optional (a : pyval) : bool :=
  negb (match a with
        | VDict entries => truthy (dict_get_default "required" (VConst (CBool false)) entries)
        | _ => false
        end).

(** [[a for a in args if is_required(a)]]: the comprehension stops at the
    first element on which the condition raises. *)
Fixpoint required_of (args : list pyval) : result (list pyval) :=
  match args with
  | [] => Ok []
  | a :: rest =>
      bind (is_required a) (fun keep =>
      bind (required_of rest) (fun tail =>
      Ok (if keep then a :: tail else tail)))
  end.

Definition optional_of (args : list pyval) : list pyval := filter is_optional args.

(** [getattr(a, name, default)] *)
Definition py_getattr (a : pyval) (name : string) (default : pyval) : pyval :=
  match a with
  | VObject attrs => dict_get_default name default attrs
  | _ => default
  end.

Definition normalize_arg (a : pyval) : dict pyval :=
  match a with
  | VDict entries => entries
  | _ =>
      [("name", py_getattr a "name" (VConst (CStr (py_str a))));
       ("required", py_getattr a "required" (VConst (CBool false)));
       ("arg_type", py_getattr a "arg_type" (VConst (CStr "string")));
       ("default", py_getattr a "default" (VConst CNone));
       ("description", py_getattr a "description" (VConst (CStr "")))]
  end.

(** The pieces [generate] hands to the template engine. *)
Definition generate_segments (operation_info : dict pyval) : result (list segment) :=
  let op_name := dict_get_default "name" (VConst (CStr "Unknown")) operation_info in
  let args := dict_get_default "args" (VList []) operation_info in
  bind (py_iter args) (fun args =>
  bind (required_of args) (fun required_args =>
  let optional_args := optional_of args in
  let args_normalized := map normalize_arg args in
  let required_normalized := map normalize_arg required_args in
  let optional_normalized := map normalize_arg optional_args in
  Ok (template_segments op_name args_normalized required_normalized optional_normalized))).

Definition generate (operation_info : dict pyval) : result string :=
  bind (generate_segments operation_info) (fun segs =>
  Ok (concat_strings (map render_segment segs))).

(** The test cases of the generated suite, in order. *)
Definition generate_cases (operation_info : dict pyval) : result (list TestCase) :=
  bind (generate_segments operation_info) (fun segs => Ok (cases_of segs)).

End Rendering.

(** ** The counts of the specification's formula

    For an argument list made of dictionaries: the arguments whose
    ["required"] entry is true, the others, and those whose ["arg_type"] is
    ['int']. *)
Definition required_flag (arg : dict pyval) : bool :=
  truthy (dict_get_default "required" (VConst (CBool false)) arg).

Definition required_count (args : list (dict pyval)) : nat :=
  List.length (filter required_flag args).

Definition optional_count (args : list (dict pyval)) : nat :=
  List.length (filter (fun a => negb (required_flag a)) args).

Definition numeric_count (args : list (dict pyval)) : nat :=
  List.length (filter is_int_arg args).

(** The [args] entry of an operation, as [generate] reads it. *)
Definition args_of (operation_info : dict pyval) : pyval :=
  dict_get_default "args" (VList []) operation_info.

Definition name_of (operation_info : dict pyval) : pyval :=
  dict_get_default "name" (VConst (CStr "Unknown")) operation_info.

(** A runtime that agrees with Python on ASCII text. *)
Definition ascii_upper (c : ascii) : ascii :=
  let n := nat_of_ascii c in
  if (97 <=? n)%nat && (n <=? 122)%nat then ascii_of_nat (n - 32) else c.

Definition ascii_lower (c : ascii) : ascii :=
  let n := nat_of_ascii c in
  if (65 <=? n)%nat && (n <=? 90)%nat then ascii_of_nat (n + 32) else c.

Fixpoint map_string (f : ascii -> ascii) (s : string) : string :=
  match s with
  | EmptyString => EmptyString
  | String c rest => String (f c) (map_string f rest)
  end.

Definition ascii_runtime : Runtime :=
  {| str_upper := map_string ascii_upper;
     str_lower := map_string ascii_lower;
     py_repr := fun _ => "<object>" |}.

(** The operation of the specification's example: [deploy] with the required
    argument [target] and the optional argument [force]. *)
Definition deploy_args : list (dict pyval) :=
  [[("name", VConst (CStr "target")); ("required", VConst (CBool true));
    ("arg_type", VConst (CStr "string")); ("default", VConst CNone);
    ("description", VConst (CStr ""))];
   [("name", VConst (CStr "force")); ("required", VConst (CBool false));
    ("arg_type", VConst (CStr "flag")); ("default", VConst CNone);
    ("description", VConst (CStr ""))]].

Definition deploy : dict pyval :=
  [("name", VConst (CStr "deploy"));
   ("description", VConst (CStr "Deploy a service"));
   ("args", VList (map VDict deploy_args))].

(** ** What [generate] reads of its input

    Two argument values read alike when they are the same value, or when
    they are dictionaries with the same entries for the four keys that
    [generate] and the template look up; two [args] values read alike when
    they are the same value or lists whose elements read alike. *)
Definition arg_keys : list string := ["name"; "required"; "arg_type"; "default"].

Definition same_fields (d1 d2 : dict pyval) : Prop :=
  forall k, In k arg_keys -> dict_get k d1 = dict_get k d2.

Inductive same_argument : pyval -> pyval -> Prop :=
| same_argument_dict d1 d2 :
    same_fields d1 d2 -> same_argument (VDict d1) (VDict d2)
| same_argument_refl a : same_argument a a.

Inductive same_arguments : pyval -> pyval -> Prop :=
| same_arguments_list l1 l2 :
    Forall2 same_argument l1 l2 -> same_arguments (VList l1) (VList l2)
| same_arguments_refl v : same_arguments v v.

(** [deploy] again, with the entries of every dictionary in another order,
    another description and more entries. *)
Definition deploy_reordered : dict pyval :=
  [("source_code", VConst (CStr "import sys"));
   ("args",
    VList [VDict [("description", VConst (CStr "where to deploy"));
                  ("default", VConst CNone); ("arg_type", VConst (CStr "string"));
                  ("required", VConst (CBool true)); ("name", VConst (CStr "target"))];
           VDict [("default", VConst CNone); ("name", VConst (CStr "force"));
                  ("arg_type", VConst (CStr "flag")); ("required", VConst (CBool false))]]);
   ("env_vars", VList [VConst (CStr "HOME")]);
   ("name", VConst (CStr "deploy"))].


End Template.

(* ===================================================================== *)
(** * agent/scanner.py *)
(* ===================================================================== *)

(** The part of Python's [ast] module the scanner looks at.  A node keeps the
    fields the scanner reads; every other kind of node is [Other].  The keys
    of a [Dict] are optional because [ast] stores [None] for a [**mapping]
    entry; the [arg] of a keyword is [None] for [**kwargs].  A [FunctionDef]
    carries the names of [node.args.args] and [ast.get_docstring(node)].  A
    parsed file is given by the sequence that [ast.walk] yields and by
    [ast.get_docstring] of the module. *)
Module ast.

Inductive node : Type :=
| Constant (value : Py.constant)
| Name (id : string)
| Attribute (value : node) (attr : string)
| Call (func : node) (args : list node) (keywords : list (option string * node))
| Dict (keys : list (option node)) (values : list node)
| List (elts : list node)
| Assign (targets : list node) (value : node)
| FunctionDef (name : string) (args : list string) (docstring : option string)
    (decorator_list : list node)
| Other.

Record tree : Type := {
  walk : list node;
  get_docstring : option string
}.

End ast.

Module Scanner.
Import Py.

Record OperationArg : Type := {
  name : string;
  required : bool;
  arg_type : string;
  default : option string;
  description : constant
}.

(** [OperationArg(name=n, required=r)] *)
Definition new_arg (n : string) (r : bool) : OperationArg :=
  {| name := n; required := r; arg_type := "string"; default := None;
     description := CStr "" |}.

Record FunctionInfo : Type := {
  fn_name : string;
  fn_docstring : string;
  fn_args : list string
}.

Record ErrorCondition : Type := {
  ec_type : string;
  ec_count : nat;
  ec_pattern : string
}.

Record OperationInfo : Type := {
  op_name : constant;
  op_description : constant;
  script_path : constant;
  args : list OperationArg;
  functions : list FunctionInfo;
  env_vars : list string;
  error_conditions : list ErrorCondition;
  source_code : string
}.

(** [OperationInfo(name=..., description=..., script_path=..., args=...)] *)
Definition new_operation (n d s : constant) (a : list OperationArg) : OperationInfo :=
  {| op_name := n; op_description := d; script_path := s; args := a;
     functions := []; env_vars := []; error_conditions := []; source_code := "" |}.

(** ** Dictionaries keyed by operation name

    The keys are the constants of the registry literal; they are compared
    with Python's [==].  Insertion order is kept, and assigning to a key that
    is already there replaces the value in place. *)
Definition opmap (V : Type) : Type := list (constant * V).

Fixpoint op_get {V : Type} (k : constant) (m : opmap V) : option V :=
  match m with
  | [] => None
  | (k', v) :: rest => if const_eqb k' k then Some v else op_get k rest
  end.

Definition op_mem {V : Type} (k : constant) (m : opmap V) : bool :=
  match op_get k m with
  | Some _ => true
  | None => false
  end.

Fixpoint op_set {V : Type} (k : constant) (v : V) (m : opmap V) : opmap V :=
  match m with
  | [] => [(k, v)]
  | (k', v') :: rest =>
      if const_eqb k' k then (k', v) :: rest else (k', v') :: op_set k v rest
  end.

Definition op_keys {V : Type} (m : opmap V) : list constant := map fst m.

(** ** What the scanner asks of its environment *)
Record World : Type := {
  (** [os.path.exists(path)] *)
  path_exists : string -> bool;
  (** [os.walk(top)]: the triples [(root, dirs, files)] *)
  os_walk : string -> list (string * list string * list string);
  (** [open(path, "r").read()]; [None] when it raises [OSError] *)
  read_text : string -> option string;
  (** [ast.parse(source)]; [None] when it raises [SyntaxError] *)
  ast_parse : string -> option ast.tree;
  (** [re.findall(pattern, text)] *)
  re_findall : string -> string -> list string
}.

(** ** [os.path] on POSIX *)

Fixpoint endswith_slash (s : string) : bool :=
  match s with
  | EmptyString => false
  | String c EmptyString => Ascii.eqb c "/"
  | String _ rest => endswith_slash rest
  end.

(** [os.path.join(a, b)] *)
Definition path_join (a b : string) : string :=
  if startswith "/" b then b
  else if String.eqb a "" || endswith_slash a then a ++ b
  else a ++ "/" ++ b.

Fixpoint string_rev_onto (s acc : string) : string :=
  match s with
  | EmptyString => acc
  | String c rest => string_rev_onto rest (String c acc)
  end.

Definition string_rev (s : string) : string := string_rev_onto s EmptyString.

(** Drops the characters up to the first [/], which is kept. *)
Fixpoint drop_to_slash (s : string) : string :=
  match s with
  | EmptyString => EmptyString
  | String c rest => if Ascii.eqb c "/" then s else drop_to_slash rest
  end.

Fixpoint all_slashes (s : string) : bool :=
  match s with
  | EmptyString => true
  | String c rest => Ascii.eqb c "/" && all_slashes rest
  end.

(** [os.path.dirname(p)]: the text up to the last [/], without trailing
    slashes unless it consists of slashes only. *)
Definition dirname (p : string) : string :=
  let head_rev := drop_to_slash (string_rev p) in
  if all_slashes head_rev then head_rev
  else string_rev (lstrip_char "/" head_rev).

Fixpoint count_slashes (s : string) : nat :=
  match s with
  | EmptyString => 0
  | String c rest => (if Ascii.eqb c "/" then 1 else 0) + count_slashes rest
  end.

(** [len(p.split(os.sep))] *)
Definition depth (p : string) : nat := S (count_slashes p).

(** [sorted(matches, key=depth)[0]]: the sort is stable, so this is the
    first path of least depth. *)
Fixpoint shallowest (best : string) (rest : list string) : string :=
  match rest with
  | [] => best
  | p :: rest' => shallowest (if Nat.ltb (depth p) (depth best) then p else best) rest'
  end.

(** ** [RepoScanner] *)

Record RepoScanner : Type := {
  repo_path : string;
  operations : opmap OperationInfo
}.

(** [RepoScanner(repo_path)] *)
Definition init (path : string) : RepoScanner :=
  {| repo_path := path; operations := [] |}.

(** [value.lstrip("-").replace("-", "_")]; only a string has the methods. *)
Definition normalize_flag (value : constant) : result string :=
  match value with
  | CStr s => Ok (replace_char "-" "_" (lstrip_char "-" s))
  | _ => Raise AttributeError
  end.

(** The loop over [v.elts] of an ["args"] list: every constant element
    appends a required argument. *)
Fixpoint extract_args (elts : list ast.node) (acc : list OperationArg)
    : result (list OperationArg) :=
  match elts with
  | [] => Ok acc
  | ast.Constant value :: rest =>
      bind (normalize_flag value) (fun arg_name =>
      extract_args rest (acc ++ [new_arg arg_name true]))
  | _ :: rest => extract_args rest acc
  end.

(** [op_data]: the description, the arguments and the script collected for
    one registry entry. *)
Record op_data : Type := {
  od_description : constant;
  od_args : list OperationArg;
  od_script : constant
}.

Definition empty_op_data : op_data :=
  {| od_description := CStr ""; od_args := []; od_script := CStr "" |}.

(** One [k, v] pair of an operation's dictionary literal. *)
Definition extract_entry (k : option ast.node) (v : ast.node) (d : op_data) : result op_data :=
  match k with
  | Some (ast.Constant kv) =>
      match v with
      | ast.Constant value =>
          if const_eqb kv (CStr "description") then
            Ok {| od_description := value; od_args := od_args d; od_script := od_script d |}
          else if const_eqb kv (CStr "script") then
            Ok {| od_description := od_description d; od_args := od_args d; od_script := value |}
          else Ok d
      | ast.List elts =>
          if const_eqb kv (CStr "args") then
            bind (extract_args elts (od_args d)) (fun a =>
            Ok {| od_description := od_description d; od_args := a; od_script := od_script d |})
          else Ok d
      | _ => Ok d
      end
  | _ => Ok d
  end.

Fixpoint extract_entries (kvs : list (option ast.node * ast.node)) (d : op_data)
    : result op_data :=
  match kvs with
  | [] => Ok d
  | (k, v) :: rest => bind (extract_entry k v d) (extract_entries rest)
  end.

(** The body of the loop over the registry literal, for one [key, value]. *)
Definition extract_operation (key : option ast.node) (value : ast.node)
    (ops : opmap OperationInfo) : result (opmap OperationInfo) :=
  match key with
  | Some (ast.Constant op_name) =>
      bind (match value with
            | ast.Dict keys values => extract_entries (combine keys values) empty_op_data
            | _ => Ok empty_op_data
            end) (fun d =>
      Ok (op_set op_name
            (new_operation op_name (od_description d) (od_script d) (od_args d)) ops))
  | _ => Ok ops
  end.

Fixpoint extract_operations (kvs : list (option ast.node * ast.node))
    (ops : opmap OperationInfo) : result (opmap OperationInfo) :=
  match kvs with
  | [] => Ok ops
  | (key, value) :: rest => bind (extract_operation key value ops) (extract_operations rest)
  end.

Definition _extract_operations_dict (node : ast.node) : result (opmap OperationInfo) :=
  match node with
  | ast.Dict keys values => extract_operations (combine keys values) []
  | _ => Ok []
  end.

(** ** [_parse_click_options] *)

(** The first string constant among the positional arguments that starts
    with [--], normalized. *)
Fixpoint option_name (call_args : list ast.node) : option string :=
  match call_args with
  | [] => None
  | ast.Constant (CStr s) :: rest =>
      if startswith "--" s then Some (replace_char "-" "_" (lstrip_char "-" s))
      else option_name rest
  | _ :: rest => option_name rest
  end.

(** One keyword of a [click.option(...)] call. *)
Definition apply_keyword (kw : option string * ast.node) (arg : OperationArg) : OperationArg :=
  match fst kw with
  | None => arg
  | Some k =>
      if String.eqb k "help" then
        match snd kw with
        | ast.Constant value =>
            {| name := name arg; required := required arg; arg_type := arg_type arg;
               default := default arg; description := value |}
        | _ => arg
        end
      else if String.eqb k "default" then
        match snd kw with
        | ast.Constant value =>
            {| name := name arg; required := required arg; arg_type := arg_type arg;
               default := Some (const_str value); description := description arg |}
        | _ => arg
        end
      else if String.eqb k "type" then
        match snd kw with
        | ast.Attribute _ attr =>
            {| name := name arg; required := required arg; arg_type := attr;
               default := default arg; description := description arg |}
        | ast.Name id =>
            {| name := name arg; required := required arg; arg_type := id;
               default := default arg; description := description arg |}
        | _ => arg
        end
      else if String.eqb k "is_flag" then
        {| name := name arg; required := required arg; arg_type := "flag";
           default := default arg; description := description arg |}
      else arg
  end.

(** One decorator of [run]: a call of [<something>.option] with a long flag
    among its positional arguments yields one record. *)
Definition click_option (decorator : ast.node) : list OperationArg :=
  match decorator with
  | ast.Call (ast.Attribute _ attr) call_args keywords =>
      if String.eqb attr "option" then
        match option_name call_args with
        | Some opt_name =>
            if String.eqb opt_name "" then []
            else [fold_left (fun arg kw => apply_keyword kw arg) keywords
                            (new_arg opt_name false)]
        | None => []
        end
      else []
  | _ => []
  end.

Definition _parse_click_options (tree : ast.tree) : list OperationArg :=
  flat_map (fun node =>
              match node with
              | ast.FunctionDef fname _ _ decorator_list =>
                  if String.eqb fname "run" then flat_map click_option decorator_list
                  else []
              | _ => []
              end)
           (ast.walk tree).

(** ** The merge of the option records into the registry's arguments *)

(** The body of the innermost loop: [cli_arg] overwrites [arg] when the names
    are equal. *)
Definition merge_option (arg cli_arg : OperationArg) : OperationArg :=
  if String.eqb (name cli_arg) (name arg) then
    {| name := name arg; required := required arg; arg_type := arg_type cli_arg;
       default := default cli_arg; description := description cli_arg |}
  else arg.

Definition merge_arg (cli_args : list OperationArg) (arg : OperationArg) : OperationArg :=
  fold_left merge_option cli_args arg.

Definition merge_args (cli_args : list OperationArg) (op_info : OperationInfo) : OperationInfo :=
  {| op_name := op_name op_info; op_description := op_description op_info;
     script_path := script_path op_info;
     args := map (merge_arg cli_args) (args op_info);
     functions := functions op_info; env_vars := env_vars op_info;
     error_conditions := error_conditions op_info; source_code := source_code op_info |}.

Definition merge_cli_args (cli_args : list OperationArg) (ops : opmap OperationInfo)
    : opmap OperationInfo :=
  map (fun kv => (fst kv, merge_args cli_args (snd kv))) ops.

(** ** [_parse_cli] *)

(** The alternate locations tried when [service_console/cli.py] is missing:
    the first one that exists, or the path unchanged. *)
Fixpoint first_existing (w : World) (root : string) (candidates : list string)
    (cli_path : string) : string :=
  match candidates with
  | [] => cli_path
  | candidate :: rest =>
      let full := path_join root candidate in
      if path_exists w full then full else first_existing w root rest cli_path
  end.

(** The directory-wide search: every directory that has a sub-directory
    [service_console] holding an existing [cli.py]. *)
Definition walk_matches (w : World) (root : string) : list string :=
  flat_map (fun entry =>
              match entry with
              | (dir, dirs, _) =>
                  if existsb (String.eqb "service_console") dirs then
                    let candidate := path_join (path_join dir "service_console") "cli.py" in
                    if path_exists w candidate then [candidate] else []
                  else []
              end)
           (os_walk w root).

(** The search for [cli.py]: the path that is finally tested, and the
    repository path, which the directory-wide search re-anchors. *)
Definition locate_cli (w : World) (self : RepoScanner) : string * RepoScanner :=
  let cli_path := path_join (path_join (repo_path self) "service_console") "cli.py" in
  let cli_path :=
    if path_exists w cli_path then cli_path
    else first_existing w (repo_path self)
           ["cli.py"; "service_console/cli.py"; "src/cli.py"] cli_path in
  if path_exists w cli_path then (cli_path, self)
  else
    match walk_matches w (repo_path self) with
    | [] => (cli_path, self)
    | m :: ms =>
        let found := shallowest m ms in
        (found, {| repo_path := dirname (dirname found); operations := operations self |})
    end.

(** The loop over [ast.walk(tree)] that looks for assignments to
    [AVAILABLE_OPERATIONS]; the last one found gives the registry. *)
Definition is_registry_name (target : ast.node) : bool :=
  match target with
  | ast.Name id => String.eqb id "AVAILABLE_OPERATIONS"
  | _ => false
  end.

Fixpoint assign_targets (targets : list ast.node) (value : ast.node)
    (ops : opmap OperationInfo) : result (opmap OperationInfo) :=
  match targets with
  | [] => Ok ops
  | target :: rest =>
      if is_registry_name target
      then bind (_extract_operations_dict value) (assign_targets rest value)
      else assign_targets rest value ops
  end.

Fixpoint find_registry (nodes : list ast.node) (ops : opmap OperationInfo)
    : result (opmap OperationInfo) :=
  match nodes with
  | [] => Ok ops
  | ast.Assign targets value :: rest =>
      bind (assign_targets targets value ops) (find_registry rest)
  | _ :: rest => find_registry rest ops
  end.

Definition _parse_cli (w : World) (self : RepoScanner)
    : RepoScanner * result (opmap OperationInfo) :=
  let (cli_path, self) := locate_cli w self in
  if negb (path_exists w cli_path) then (self, Ok [])
  else
    match read_text w cli_path with
    | None => (self, Raise OSError)
    | Some source =>
        match ast_parse w source with
        | None => (self, Raise SyntaxError)
        | Some tree =>
            (self,
             bind (find_registry (ast.walk tree) []) (fun operations =>
             let cli_args := _parse_click_options tree in
             Ok (merge_cli_args cli_args operations)))
        end
    end.

(** ** [_parse_operation_script] *)

Definition dq : string := String (ascii_of_nat 34) EmptyString.

Definition env_pattern : string :=
  "os\.environ\.get\([" ++ dq ++ "\'](\w+)[" ++ dq ++ "\']".

Definition error_patterns : list (string * string) :=
  [("print\(.*" ++ dq ++ "Error:.*" ++ dq, "error_print");
   ("sys\.exit\((\d+)\)", "exit_code");
   ("file=sys\.stderr", "stderr_output");
   ("status.*error", "error_status");
   ("return 1", "failure_return")].

(** The loop over [error_patterns]: a pattern with at least one match appends
    one entry. *)
Definition error_condition (w : World) (source : string) (p : string * string)
    : list ErrorCondition :=
  match re_findall w (fst p) source with
  | [] => []
  | matches =>
      [{| ec_type := snd p; ec_count := List.length matches; ec_pattern := fst p |}]
  end.

Definition scan_error_conditions (w : World) (source : string) : list ErrorCondition :=
  flat_map (error_condition w source) error_patterns.

(** The loop over [ast.walk(tree)] that records the functions. *)
Definition function_infos (tree : ast.tree) : list FunctionInfo :=
  flat_map (fun node =>
              match node with
              | ast.FunctionDef fname params doc _ =>
                  [{| fn_name := fname;
                      fn_docstring := match doc with Some d => d | None => "" end;
                      fn_args := filter (fun a => negb (String.eqb a "self")) params |}]
              | _ => []
              end)
           (ast.walk tree).

(** [os.path.join(self.repo_path, op_info.script_path)]: joining a value
    that is not a string raises [TypeError]. *)
Definition join_script (root : string) (script : constant) : result string :=
  match script with
  | CStr s => Ok (path_join root s)
  | _ => Raise TypeError
  end.

(** The script file of an operation: under the repository, else under its
    [service_console] directory; [None] when neither exists. *)
Definition resolve_script (w : World) (root : string) (script : constant)
    : result (option string) :=
  bind (join_script root script) (fun script_path =>
  if path_exists w script_path then Ok (Some script_path)
  else
    bind (join_script (path_join root "service_console") script) (fun alt_path =>
    if path_exists w alt_path then Ok (Some alt_path) else Ok None)).

Definition _parse_operation_script (w : World) (self : RepoScanner) (op_info : OperationInfo)
    : result OperationInfo :=
  bind (resolve_script w (repo_path self) (script_path op_info)) (fun found =>
  match found with
  | None => Ok op_info
  | Some script_path =>
      match read_text w script_path with
      | None => Raise OSError
      | Some source =>
          match ast_parse w source with
          | None => Raise SyntaxError
          | Some tree =>
              Ok {| op_name := op_name op_info;
                    op_description :=
                      match ast.get_docstring tree with
                      | Some module_doc =>
                          if negb (String.eqb module_doc "")
                             && negb (const_truthy (op_description op_info))
                          then CStr module_doc
                          else op_description op_info
                      | None => op_description op_info
                      end;
                    script_path := Scanner.script_path op_info;
                    args := args op_info;
                    functions := functions op_info ++ function_infos tree;
                    env_vars := re_findall w env_pattern source;
                    error_conditions :=
                      error_conditions op_info ++ scan_error_conditions w source;
                    source_code := source |}
          end
      end
  end).

(** ** [scan] *)

(** The loop over [cli_operations.items()]: each operation is parsed and then
    stored in [self.operations]; an exception leaves the loop with the
    operations stored so far. *)
Fixpoint scan_operations (w : World) (self : RepoScanner)
    (cli_operations : opmap OperationInfo) : RepoScanner * result unit :=
  match cli_operations with
  | [] => (self, Ok tt)
  | (name, op_info) :: rest =>
      match _parse_operation_script w self op_info with
      | Raise e => (self, Raise e)
      | Ok op_info' =>
          scan_operations w
            {| repo_path := repo_path self;
               operations := op_set name op_info' (operations self) |}
            rest
      end
  end.

(** [scan] returns [self.operations] itself. *)
Definition scan (w : World) (self : RepoScanner)
    : RepoScanner * result (opmap OperationInfo) :=
  match _parse_cli w self with
  | (self, Raise e) => (self, Raise e)
  | (self, Ok cli_operations) =>
      match scan_operations w self cli_operations with
      | (self, Raise e) => (self, Raise e)
      | (self, Ok _) => (self, Ok (operations self))
      end
  end.

(** ** Notions used to state the properties of the scanner *)


(** An operation as the registry extraction builds it: nothing scanned yet,
    every argument required. *)
Definition registry_entry (op_info : OperationInfo) : Prop :=
  functions op_info = [] /\ env_vars op_info = [] /\ error_conditions op_info = []
  /\ source_code op_info = "" /\ Forall (fun a => required a = true) (args op_info).

Definition all_entries (ops : opmap OperationInfo) : Prop :=
  forall name op_info, In (name, op_info) ops -> registry_entry op_info.

(** The number of entries of kind [kind] in a list of error conditions. *)
Definition entries_of_kind (kind : string) (l : list ErrorCondition) : nat :=
  List.length (filter (fun e => String.eqb (ec_type e) kind) l).

End Scanner.

(* ===================================================================== *)
(** * agent/orchestrator.py: [TestAutomationAgent.scan_for_changes] *)
(* ===================================================================== *)

Module Orchestrator.
Import Py Scanner.

(** The attributes of the agent that [scan_for_changes] touches. *)
Record TestAutomationAgent : Type := {
  scanner : RepoScanner;
  scan_results : opmap OperationInfo
}.

(** ** Sets of operation names

    A set of names is the list of its elements, without repetition up to
    [==].  Python leaves the iteration order of a set, and which of two equal
    objects an intersection keeps, unspecified: here the order is that of the
    left operand, and the statements about these sets only speak about
    membership up to [==]. *)
Definition name_in (k : constant) (s : list constant) : bool :=
  existsb (const_eqb k) s.

(** [a - b] *)
Definition set_difference (a b : list constant) : list constant :=
  filter (fun k => negb (name_in k b)) a.

(** [a & b] *)
Definition set_intersection (a b : list constant) : list constant :=
  filter (fun k => name_in k b) a.

(** [current[name].source_code != previous_operations.get(name, {}).get("source_code", "")];
    an entry of the previous mapping is a dictionary. *)
Definition source_changed (previous_operations : opmap (dict constant))
    (current : opmap OperationInfo) (name : constant) : bool :=
  match op_get name current with
  | Some op_info =>
      let previous_entry :=
        match op_get name previous_operations with
        | Some entry => entry
        | None => []
        end in
      negb (const_eqb (CStr (source_code op_info))
                      (dict_get_default "source_code" (CStr "") previous_entry))
  | None => false
  end.

(** The part of [scan_for_changes] that follows the scan, for a previous
    mapping that is not [None]. *)
Definition new_operations (previous_operations : opmap (dict constant))
    (current : opmap OperationInfo) : list constant :=
  let prev_names := op_keys previous_operations in
  let curr_names := op_keys current in
  let added := set_difference curr_names prev_names in
  let modified :=
    filter (source_changed previous_operations current)
           (set_intersection curr_names prev_names) in
  added ++ modified.

Definition scan_for_changes (w : World) (self : TestAutomationAgent)
    (previous_operations : option (opmap (dict constant)))
    : TestAutomationAgent * result (list constant) :=
  match scan w (scanner self) with
  | (sc, Raise e) => ({| scanner := sc; scan_results := scan_results self |}, Raise e)
  | (sc, Ok current) =>
      match previous_operations with
      | None =>
          ({| scanner := sc; scan_results := scan_results self |}, Ok (op_keys current))
      | Some previous =>
          ({| scanner := sc; scan_results := current |},
           Ok (new_operations previous current))
      end
  end.

End Orchestrator.

(* ===================================================================== *)
(** * A small repository, used to instantiate the statements below *)
(* ===================================================================== *)

Module Demo.
Import Py Scanner Orchestrator.

Definition str (s : string) : ast.node := ast.Constant (CStr s).

(** [click.option(flag, **keywords)] *)
Definition click_option_call (flag : string) (keywords : list (option string * ast.node))
    : ast.node :=
  ast.Call (ast.Attribute (ast.Name "click") "option") [str flag] keywords.

(** The decorators of [run]: [--target] with a help text, [--max-count] with
    a type and a default, and [--verbose], which no operation declares. *)
Definition run_decorators : list ast.node :=
  [ast.Call (ast.Attribute (ast.Name "cli") "command") [] [];
   click_option_call "--target" [(Some "help", str "Deployment target")];
   click_option_call "--max-count"
     [(Some "type", ast.Name "int"); (Some "default", ast.Constant (CInt 3))];
   click_option_call "--verbose" [(Some "is_flag", ast.Constant (CBool true))]].

Definition backup_entry : ast.node :=
  ast.Dict [Some (str "description"); Some (str "script"); Some (str "args")]
           [str "Back up the database"; str "ops/backup.py"; ast.List []].

Definition deploy_entry : ast.node :=
  ast.Dict [Some (str "description"); Some (str "script"); Some (str "args")]
           [str "Deploy a service"; str "ops/deploy.py";
            ast.List [str "--target"; str "--max-count"]].

(** [AVAILABLE_OPERATIONS = {"backup": {...}, "deploy": {...}}] *)
Definition registry_literal : ast.node :=
  ast.Dict [Some (str "backup"); Some (str "deploy")] [backup_entry; deploy_entry].

Definition cli_tree : ast.tree :=
  {| ast.walk :=
       [ast.Other;
        ast.Assign [ast.Name "AVAILABLE_OPERATIONS"] registry_literal;
        ast.FunctionDef "run" ["operation"; "target"; "max_count"; "verbose"]
          (Some "Run an operation.") run_decorators];
     ast.get_docstring := Some "Service console." |}.

(** The same entry point after [deploy] was removed from the registry. *)
Definition cli_tree_without_deploy : ast.tree :=
  {| ast.walk :=
       [ast.Other;
        ast.Assign [ast.Name "AVAILABLE_OPERATIONS"]
          (ast.Dict [Some (str "backup")] [backup_entry]);
        ast.FunctionDef "run" ["operation"] (Some "Run an operation.") run_decorators];
     ast.get_docstring := Some "Service console." |}.

Definition script_tree : ast.tree :=
  {| ast.walk := [ast.Other; ast.FunctionDef "main" ["self"; "target"] (Some "Entry point.") []];
     ast.get_docstring := None |}.

Definition cli_source : string := "AVAILABLE_OPERATIONS = {backup, deploy}".
Definition cli_source_without_deploy : string := "AVAILABLE_OPERATIONS = {backup}".
Definition backup_source : string := "def main(): pass".
Definition deploy_source : string := "def main(): sys.exit(2); return 1; return 1".
Definition broken_source : string := "def main(:".

Definition parse (source : string) : option ast.tree :=
  if String.eqb source cli_source then Some cli_tree
  else if String.eqb source cli_source_without_deploy then Some cli_tree_without_deploy
  else if String.eqb source broken_source then None
  else Some script_tree.

Definition findall (pattern text : string) : list string :=
  if String.eqb text deploy_source then
    if String.eqb pattern "return 1" then ["return 1"; "return 1"]
    else if String.eqb pattern "sys\.exit\((\d+)\)" then ["2"]
    else []
  else [].

(** The world in which exactly the files of [files] exist. *)
Definition world_of (files : dict string) : World :=
  {| path_exists := fun path => match dict_get path files with Some _ => true | None => false end;
     os_walk := fun _ => [];
     read_text := fun path => dict_get path files;
     ast_parse := parse;
     re_findall := findall |}.

Definition repo : World :=
  world_of [("/repo/service_console/cli.py", cli_source);
            ("/repo/ops/backup.py", backup_source);
            ("/repo/ops/deploy.py", deploy_source)].

Definition repo_without_deploy : World :=
  world_of [("/repo/service_console/cli.py", cli_source_without_deploy);
            ("/repo/ops/backup.py", backup_source)].

Definition repo_with_broken_script : World :=
  world_of [("/repo/service_console/cli.py", cli_source);
            ("/repo/ops/backup.py", broken_source);
            ("/repo/ops/deploy.py", deploy_source)].

Definition repo_with_broken_cli : World :=
  world_of [("/repo/service_console/cli.py", broken_source);
            ("/repo/ops/backup.py", backup_source)].

Definition empty_repo : World := world_of [].

(** The repository without the script of [deploy]. *)
Definition repo_without_deploy_script : World :=
  world_of [("/repo/service_console/cli.py", cli_source);
            ("/repo/ops/backup.py", backup_source)].

(** A repository whose [service_console] package lies deeper in the tree,
    twice: once under [pkg] and once under [vendor/old]. *)
Definition nested_repo : World :=
  {| path_exists := fun path =>
       String.eqb path "/repo/vendor/old/service_console/cli.py"
       || String.eqb path "/repo/pkg/service_console/cli.py"
       || String.eqb path "/repo/pkg/ops/backup.py";
     os_walk := fun _ =>
       [("/repo", ["vendor"; "pkg"], []);
        ("/repo/vendor", ["old"], []);
        ("/repo/vendor/old", ["service_console"], []);
        ("/repo/vendor/old/service_console", [], ["cli.py"]);
        ("/repo/pkg", ["service_console"; "ops"], []);
        ("/repo/pkg/service_console", [], ["cli.py"]);
        ("/repo/pkg/ops", [], ["backup.py"])];
     read_text := fun path =>
       if String.eqb path "/repo/pkg/ops/backup.py" then Some backup_source
       else Some cli_source_without_deploy;
     ast_parse := parse;
     re_findall := findall |}.

(** A repository whose entry point declares no registry. *)
Definition plain_source : string := "import click".

Definition repo_without_registry : World :=
  world_of [("/repo/service_console/cli.py", plain_source)].

(** The operations of [registry_literal], before the option records are
    merged in. *)
Definition backup_operation : OperationInfo :=
  new_operation (CStr "backup") (CStr "Back up the database") (CStr "ops/backup.py") [].

Definition deploy_operation : OperationInfo :=
  new_operation (CStr "deploy") (CStr "Deploy a service") (CStr "ops/deploy.py")
    [new_arg "target" true; new_arg "max_count" true].

(** The result of scanning one operation of this repository. *)
Definition scanned (w : World) (op_info : OperationInfo) : OperationInfo :=
  match _parse_operation_script w (init "/repo") op_info with
  | Ok op_info' => op_info'
  | Raise _ => op_info
  end.

Definition merged_deploy_operation : OperationInfo :=
  merge_args (_parse_click_options cli_tree) deploy_operation.

(** An agent that has not scanned yet. *)
Definition new_agent : TestAutomationAgent :=
  {| scanner := init "/repo"; scan_results := [] |}.

(** The snapshots of the specification's change-detection examples. *)
Definition snapshot (l : list (string * string)) : opmap OperationInfo :=
  map (fun kv =>
         (CStr (fst kv),
          {| op_name := CStr (fst kv); op_description := CStr ""; script_path := CStr "";
             args := []; functions := []; env_vars := []; error_conditions := [];
             source_code := snd kv |})) l.

Definition previous_snapshot (l : list (string * string)) : opmap (dict constant) :=
  map (fun kv => (CStr (fst kv), [("source_code", CStr (snd kv))])) l.

End Demo.

(* ===================================================================== *)
(** * The rest of the pipeline: from a scanned operation to a test file *)
(* ===================================================================== *)

(** [OperationInfo.to_dict] of [agent/scanner.py], [generate_tests] of
    [agent/llm_client.py], [_generate_test] and [generate_for_operations] of
    [agent/orchestrator.py], and the snapshot that [agent/watcher.py] hands
    to [scan_for_changes]. *)
Module Generation.
Import Py Template Scanner Orchestrator.

(** ** [OperationInfo.to_dict]: [dataclasses.asdict] *)

Definition arg_to_dict (a : OperationArg) : dict pyval :=
  [("name", VConst (CStr (name a)));
   ("required", VConst (CBool (required a)));
   ("arg_type", VConst (CStr (arg_type a)));
   ("default", VConst (match default a with Some d => CStr d | None => CNone end));
   ("description", VConst (description a))].

Definition function_to_dict (f : FunctionInfo) : dict pyval :=
  [("name", VConst (CStr (fn_name f)));
   ("docstring", VConst (CStr (fn_docstring f)));
   ("args", VList (map (fun a => VConst (CStr a)) (fn_args f)))].

Definition error_condition_to_dict (e : ErrorCondition) : dict pyval :=
  [("type", VConst (CStr (ec_type e)));
   ("count", VConst (CInt (Z.of_nat (ec_count e))));
   ("pattern", VConst (CStr (ec_pattern e)))].

Definition to_dict (op_info : OperationInfo) : dict pyval :=
  [("name", VConst (op_name op_info));
   ("description", VConst (op_description op_info));
   ("script_path", VConst (script_path op_info));
   ("args", VList (map (fun a => VDict (arg_to_dict a)) (args op_info)));
   ("functions", VList (map (fun f => VDict (function_to_dict f)) (functions op_info)));
   ("env_vars", VList (map (fun v => VConst (CStr v)) (env_vars op_info)));
   ("error_conditions",
    VList (map (fun e => VDict (error_condition_to_dict e)) (error_conditions op_info)));
   ("source_code", VConst (CStr (source_code op_info)))].

(** ** [LLMClient.generate_tests] and [MockLLMClient.generate_tests] *)

(** [content.split("\n")]; the result is never empty. *)
Fixpoint split_lines (s : string) : list string :=
  match s with
  | EmptyString => [EmptyString]
  | String c rest =>
      if Ascii.eqb c (ascii_of_nat 10) then EmptyString :: split_lines rest
      else match split_lines rest with
           | [] => [String c EmptyString]
           | line :: more => String c line :: more
           end
  end.

(** ["\n".join(lines)] *)
Definition join_lines (l : list string) : string := String.concat nl l.

Definition fence : string := "```".

(** The removal of a Markdown code fence around the answer of the model,
    before the final [content.strip()].  [strip] is Python's [str.strip],
    which knows the Unicode white space. *)
Definition strip_code_fences (strip : string -> string) (content : string) : string :=
  if startswith fence content then
    let lines := split_lines content in
    let lines :=
      match lines with
      | first :: rest => if startswith fence first then rest else lines
      | [] => lines
      end in
    let lines :=
      match lines with
      | [] => lines
      | _ => if String.eqb (strip (last lines "")) fence then removelast lines else lines
      end in
    join_lines lines
  else content.

(** The two clients.  For the remote one, [complete] stands for building the
    prompt, the request to the service and the selection of
    [response.choices[0].message.content], which may be [None]. *)
Inductive llm_client : Type :=
| MockLLMClient
| LLMClient (complete : dict pyval -> result (option string)).

Definition generate_tests (rt : Runtime) (strip : string -> string) (client : llm_client)
    (operation_info : dict pyval) : result string :=
  match client with
  | MockLLMClient => generate rt operation_info
  | LLMClient complete =>
      bind (complete operation_info) (fun content =>
      match content with
      | None => Raise AttributeError
      | Some content => Ok (strip (strip_code_fences strip content))
      end)
  end.

(** ** [TestAutomationAgent._generate_test]

    The files written so far are the list of their paths and contents, in
    the order of the writes; [can_write path] tells whether
    [open(path, "w")] succeeds. *)
Definition files : Type := list (string * string).


Section Agent.

Variable rt : Runtime.
Variable strip : string -> string.
Variable client : llm_client.
Variable can_write : string -> bool.
Variable output_dir : string.





End Agent.

(** ** The snapshot of [agent/watcher.py]

    [{name: {"source_code": op.source_code} for name, op in scan.items()}] *)
Definition previous_scan (scan_results : opmap OperationInfo) : opmap (dict constant) :=
  map (fun kv => (fst kv, [("source_code", CStr (source_code (snd kv)))])) scan_results.

(** ** Notions used to state the properties below *)

(** The keys of a mapping are pairwise different for [==]. *)
Fixpoint distinct_keys {V : Type} (m : opmap V) : Prop :=
  match m with
  | [] => True
  | (k, _) :: rest => op_mem k rest = false /\ distinct_keys rest
  end.

(** A list of names without repetition up to [==]. *)
Fixpoint distinct_names (l : list constant) : Prop :=
  match l with
  | [] => True
  | k :: rest => name_in k rest = false /\ distinct_names rest
  end.

Fixpoint has_hyphen (s : string) : bool :=
  match s with
  | EmptyString => false
  | String c rest => Ascii.eqb c "-" || has_hyphen rest
  end.

(** The string constants of an ["args"] list literal, and whether the list
    holds a constant that is not a string. *)
Definition declared_flags (elts : list ast.node) : list string :=
  flat_map (fun elt => match elt with ast.Constant (CStr s) => [s] | _ => [] end) elts.

Definition other_constant (elt : ast.node) : bool :=
  match elt with
  | ast.Constant (CStr _) => false
  | ast.Constant _ => true
  | _ => false
  end.

(** An assignment whose targets include the name [AVAILABLE_OPERATIONS] and
    whose value is a dictionary literal. *)
Definition registry_literal_assignment (node : ast.node) : bool :=
  match node with
  | ast.Assign targets (ast.Dict _ _) => existsb is_registry_name targets
  | _ => false
  end.

(** The dictionary after the assignments of [l], in order. *)
Definition stored (l m : opmap OperationInfo) : opmap OperationInfo :=
  fold_left (fun m kv => op_set (fst kv) (snd kv) m) l m.

(** The operations that the loop of [scan] went through, each with the
    result of its script scan. *)
Definition scanned_as (w : World) (self : RepoScanner)
    (ops parsed : opmap OperationInfo) : Prop :=
  Forall2 (fun kv kv' => fst kv' = fst kv
                         /\ _parse_operation_script w self (snd kv) = Ok (snd kv'))
          ops parsed.

(** A string without a line break. *)
Fixpoint single_line (s : string) : bool :=
  match s with
  | EmptyString => true
  | String c rest => negb (Ascii.eqb c (ascii_of_nat 10)) && single_line rest
  end.

(** [{{ arg.name }}]: what the template prints for the name of an argument. *)
Definition printed_name (rt : Runtime) (arg : dict pyval) : string :=
  jstr rt (field arg "name").

(** The category tags of [ROBOT_TEMPLATE]. *)
Definition categories : list string :=
  ["smoke"; "positive"; "negative"; "edge_case"; "dry_run"].

(** A runtime [strip] for ASCII text: blanks, tabs and line ends. *)
Definition is_space (c : ascii) : bool :=
  let n := nat_of_ascii c in
  ((9 <=? n)%nat && (n <=? 13)%nat) || ((28 <=? n)%nat && (n <=? 32)%nat).

Fixpoint lstrip_spaces (s : string) : string :=
  match s with
  | EmptyString => EmptyString
  | String c rest => if is_space c then lstrip_spaces rest else s
  end.

Definition ascii_strip (s : string) : string :=
  string_rev (lstrip_spaces (string_rev (lstrip_spaces s))).

End Generation.

(* ===================================================================== *)
(** * Properties of the test-matrix synthesizer *)
(* ===================================================================== *)

Module TemplateFacts.
Import Py Template.
Local Open Scope list_scope.

Lemma cases_of_app (a b : list segment) :
  cases_of (a ++ b) = cases_of a ++ cases_of b.
Proof. unfold cases_of. apply flat_map_app. Qed.

Lemma cases_of_texts {A : Type} (f : A -> string) (l : list A) :
  cases_of (map (fun x => Text (f x)) l) = [].
Proof. induction l as [|x l IH]; simpl; auto. Qed.

Lemma cases_of_looped {A : Type} (f : A -> TestCase) (l : list A) :
  cases_of (flat_map (fun x => looped (f x)) l) = map f l.
Proof.
  induction l as [|x l IH]; simpl; auto.
  unfold cases_of in *. simpl. now rewrite IH.
Qed.

Lemma cases_of_pairs {A : Type} (f g : A -> TestCase) (l : list A) :
  cases_of (flat_map (fun x => [Text nl; Case (f x); Text nl; Case (g x); Text nl]) l)
  = flat_map (fun x => [f x; g x]) l.
Proof.
  induction l as [|x l IH]; simpl; auto.
  unfold cases_of in *. simpl. now rewrite IH.
Qed.

Lemma length_pairs {A B : Type} (f g : A -> B) (l : list A) :
  List.length (flat_map (fun x => [f x; g x]) l) = 2 * List.length l.
Proof. induction l as [|x l IH]; simpl; auto. rewrite IH. lia. Qed.

(** The test cases of the template, in order. *)
Lemma cases_of_template rt op_name args required_args optional_args :
  cases_of (template_segments rt op_name args required_args optional_args)
  = [smoke_test rt op_name required_args;
     dry_run_test rt op_name required_args;
     timeout_test rt op_name required_args]
    ++ map (optional_arg_test rt op_name required_args) optional_args
    ++ map (missing_required_test rt op_name required_args) required_args
    ++ [unknown_operation_test rt op_name; empty_operation_test rt op_name]
    ++ map (empty_value_test rt op_name) required_args
    ++ flat_map (fun arg => [non_numeric_test rt op_name required_args arg;
                             negative_value_test rt op_name required_args arg])
                (filter is_int_arg args)
    ++ map (special_characters_test rt op_name) required_args
    ++ [help_flag_test rt op_name].
Proof.
  unfold template_segments.
  repeat rewrite cases_of_app.
  rewrite cases_of_texts.
  repeat rewrite cases_of_looped.
  rewrite cases_of_pairs.
  reflexivity.
Qed.

(** On a dictionary the partition condition never raises. *)
Lemma is_required_dict (d : dict pyval) :
  is_required (VDict d) = Ok (required_flag d).
Proof.
  unfold is_required, required_flag. simpl.
  destruct (truthy (dict_get_default "required" (VConst (CBool false)) d)); reflexivity.
Qed.

Lemma required_of_dicts (args : list (dict pyval)) :
  required_of (map VDict args) = Ok (map VDict (filter required_flag args)).
Proof.
  induction args as [|d args IH]; simpl; auto.
  rewrite is_required_dict. simpl. rewrite IH. simpl.
  destruct (required_flag d); reflexivity.
Qed.

Lemma optional_of_dicts (args : list (dict pyval)) :
  optional_of (map VDict args)
  = map VDict (filter (fun a => negb (required_flag a)) args).
Proof.
  unfold optional_of.
  induction args as [|d args IH]; simpl; auto.
  unfold is_optional at 1, required_flag at 1.
  destruct (negb (truthy (dict_get_default "required" (VConst (CBool false)) d)));
    simpl; now rewrite IH.
Qed.

Lemma normalize_dicts rt (args : list (dict pyval)) :
  map (normalize_arg rt) (map VDict args) = args.
Proof. induction args as [|d args IH]; simpl; auto. now rewrite IH. Qed.

(** When every element of [args] is a dictionary, [generate] renders the
    template on the arguments themselves, split by their ["required"]
    entry. *)
Lemma generate_segments_dicts rt info (args : list (dict pyval)) :
  py_iter (args_of info) = Ok (map VDict args) ->
  generate_segments rt info
  = Ok (template_segments rt (name_of info) args
          (filter required_flag args)
          (filter (fun a => negb (required_flag a)) args)).
Proof.
  intros Hiter. unfold generate_segments.
  change (dict_get_default "args" (VList []) info) with (args_of info).
  rewrite Hiter. simpl.
  rewrite required_of_dicts. simpl.
  rewrite optional_of_dicts.
  now rewrite !normalize_dicts.
Qed.

Lemma template_case_count rt op_name args required_args optional_args :
  List.length (cases_of (template_segments rt op_name args required_args optional_args))
  = 1 + 1 + 1 + List.length optional_args + List.length required_args + 1 + 1
    + List.length required_args + 2 * List.length (filter is_int_arg args)
    + List.length required_args + 1.
Proof.
  rewrite cases_of_template.
  repeat (rewrite length_app || rewrite length_map || rewrite length_pairs).
  simpl. lia.
Qed.

(** C1 (as amended).  For an operation whose [args] are dictionaries, with R
    required arguments, O optional ones and n arguments of type ['int'],
    [generate] emits exactly
    smoke(1) + dry-run(1) + timeout(1) + O + R + unknown-op(1) + empty-op(1)
    + R + 2*n + R + help(1) test cases.  For the operation [deploy] with the
    required argument [target] and the optional argument [force] this is 10
    test cases, and their titles include "deploy Smoke Test",
    "deploy Fails Without Required Arg target" and
    "deploy With Optional Arg force". *)
Theorem generate_test_count :
  (forall rt info (args : list (dict pyval)),
      py_iter (args_of info) = Ok (map VDict args) ->
      exists cases,
        generate_cases rt info = Ok cases /\
        List.length cases
        = 1 + 1 + 1 + optional_count args + required_count args + 1 + 1
          + required_count args + 2 * numeric_count args + required_count args + 1)
  /\ (forall rt,
        exists cases,
          generate_cases rt deploy = Ok cases /\
          List.length cases = 10 /\
          In "deploy Smoke Test" (map title cases) /\
          In "deploy Fails Without Required Arg target" (map title cases) /\
          In "deploy With Optional Arg force" (map title cases)).
Proof.
  split.
  - intros rt info args Hiter.
    exists (cases_of (template_segments rt (name_of info) args
                        (filter required_flag args)
                        (filter (fun a => negb (required_flag a)) args))).
    split.
    + unfold generate_cases.
      now rewrite (generate_segments_dicts rt info args Hiter).
    + now rewrite template_case_count.
  - intros rt.
    exists (cases_of (template_segments rt (name_of deploy) deploy_args
                        (filter required_flag deploy_args)
                        (filter (fun a => negb (required_flag a)) deploy_args))).
    split.
    + unfold generate_cases.
      now rewrite (generate_segments_dicts rt deploy deploy_args eq_refl).
    + split; [now rewrite template_case_count|].
      rewrite cases_of_template.
      repeat split; simpl; tauto.
Qed.

(** The formula at [deploy]: 1+1+1+1+1+1+1+1+0+1+1. *)
Lemma generate_test_count_witness :
  exists cases,
    generate_cases ascii_runtime deploy = Ok cases /\
    List.length cases = 1 + 1 + 1 + 1 + 1 + 1 + 1 + 1 + 2 * 0 + 1 + 1.
Proof.
  apply (proj1 generate_test_count ascii_runtime deploy deploy_args).
  reflexivity.
Defined.

(** C1 as stated fails: [deploy] does not yield 9 test cases. *)
Lemma deploy_does_not_yield_nine_cases :
  ~ (exists cases, generate_cases ascii_runtime deploy = Ok cases /\ List.length cases = 9).
Proof.
  intros [cases [Hgen Hlen]].
  vm_compute in Hgen. inversion Hgen; subst. vm_compute in Hlen. discriminate.
Qed.

(** ** Elements of [args] that are not dictionaries *)






(** ** [generate] reads the name and four entries of every argument *)

Lemma Forall2_map_eq {A B : Type} (R : A -> A -> Prop) (f g : A -> B) (l1 l2 : list A) :
  (forall a b, R a b -> f a = g b) -> Forall2 R l1 l2 -> map f l1 = map g l2.
Proof.
  intros Hfg H. induction H as [|a b l1 l2 Hab _ IH]; simpl; auto.
  now rewrite (Hfg a b Hab), IH.
Qed.

Lemma Forall2_flat_map_eq {A B : Type} (R : A -> A -> Prop) (f g : A -> list B)
    (l1 l2 : list A) :
  (forall a b, R a b -> f a = g b) -> Forall2 R l1 l2 -> flat_map f l1 = flat_map g l2.
Proof.
  intros Hfg H. induction H as [|a b l1 l2 Hab _ IH]; simpl; auto.
  now rewrite (Hfg a b Hab), IH.
Qed.

Lemma Forall2_filter {A : Type} (R : A -> A -> Prop) (p q : A -> bool) (l1 l2 : list A) :
  (forall a b, R a b -> p a = q b) -> Forall2 R l1 l2 ->
  Forall2 R (filter p l1) (filter q l2).
Proof.
  intros Hpq H. induction H as [|a b l1 l2 Hab _ IH]; simpl; auto.
  rewrite (Hpq a b Hab). destruct (q b); auto.
Qed.

Lemma Forall2_refl {A : Type} (R : A -> A -> Prop) (l : list A) :
  (forall a, R a a) -> Forall2 R l l.
Proof. intros HR. induction l; auto. Qed.

Lemma same_fields_refl (d : dict pyval) : same_fields d d.
Proof. intros k _. reflexivity. Qed.

Lemma same_fields_name a b : same_fields a b -> field a "name" = field b "name".
Proof. intros H. apply H. simpl. auto. Qed.

Lemma same_fields_required a b :
  same_fields a b -> dict_get "required" a = dict_get "required" b.
Proof. intros H. apply H. simpl. auto. Qed.

Lemma same_fields_arg_type a b : same_fields a b -> field a "arg_type" = field b "arg_type".
Proof. intros H. apply H. simpl. auto. Qed.

Lemma same_fields_default a b : same_fields a b -> field a "default" = field b "default".
Proof. intros H. apply H. simpl. auto 6. Qed.

(** Rewrites the three template lookups of [a] into those of [b]. *)
Ltac read_alike H :=
  rewrite ?(same_fields_name H), ?(same_fields_arg_type H), ?(same_fields_default H).

Lemma flag_alike rt a b : same_fields a b -> flag rt a = flag rt b.
Proof. intros H. unfold flag. now read_alike H. Qed.

Lemma default_var_alike rt a b : same_fields a b -> default_var rt a = default_var rt b.
Proof. intros H. unfold default_var. now read_alike H. Qed.

Lemma default_or_placeholder_alike rt a b :
  same_fields a b -> default_or_placeholder rt a = default_or_placeholder rt b.
Proof. intros H. unfold default_or_placeholder. now read_alike H. Qed.

Lemma is_int_arg_alike a b : same_fields a b -> is_int_arg a = is_int_arg b.
Proof. intros H. unfold is_int_arg. now read_alike H. Qed.

Lemma variable_line_alike rt a b :
  same_fields a b -> variable_line rt a = variable_line rt b.
Proof.
  intros H. unfold variable_line.
  now rewrite (default_var_alike rt H), (default_or_placeholder_alike rt H).
Qed.

Lemma with_defaults_alike rt r1 r2 :
  Forall2 same_fields r1 r2 -> with_defaults rt r1 = with_defaults rt r2.
Proof.
  intros H. unfold with_defaults.
  apply Forall2_flat_map_eq with (R := same_fields); [|exact H].
  intros a b Hab. now rewrite (flag_alike rt Hab), (default_var_alike rt Hab).
Qed.

Lemma others_alike r1 r2 a b :
  Forall2 same_fields r1 r2 -> same_fields a b ->
  Forall2 same_fields (others r1 a) (others r2 b).
Proof.
  intros Hr Hab. unfold others. apply Forall2_filter; auto.
  intros x y Hxy. now rewrite (same_fields_name Hxy), (same_fields_name Hab).
Qed.

Section Alike.

Variable rt : Runtime.
Variable op_name : pyval.
Variables r1 r2 : list (dict pyval).
Hypothesis Hr : Forall2 same_fields r1 r2.

Lemma smoke_test_alike : smoke_test rt op_name r1 = smoke_test rt op_name r2.
Proof. unfold smoke_test. now rewrite (with_defaults_alike rt Hr). Qed.

Lemma dry_run_test_alike : dry_run_test rt op_name r1 = dry_run_test rt op_name r2.
Proof. unfold dry_run_test. now rewrite (with_defaults_alike rt Hr). Qed.

Lemma timeout_test_alike : timeout_test rt op_name r1 = timeout_test rt op_name r2.
Proof. unfold timeout_test. now rewrite (with_defaults_alike rt Hr). Qed.

Variables a b : dict pyval.
Hypothesis Hab : same_fields a b.

Lemma optional_arg_test_alike :
  optional_arg_test rt op_name r1 a = optional_arg_test rt op_name r2 b.
Proof.
  unfold optional_arg_test.
  rewrite (with_defaults_alike rt Hr), (flag_alike rt Hab),
    (default_or_placeholder_alike rt Hab).
  now read_alike Hab.
Qed.

Lemma missing_required_test_alike :
  missing_required_test rt op_name r1 a = missing_required_test rt op_name r2 b.
Proof.
  unfold missing_required_test.
  rewrite (with_defaults_alike rt (others_alike Hr Hab)), (flag_alike rt Hab).
  now read_alike Hab.
Qed.

Lemma empty_value_test_alike :
  empty_value_test rt op_name a = empty_value_test rt op_name b.
Proof. unfold empty_value_test. rewrite (flag_alike rt Hab). now read_alike Hab. Qed.

Lemma non_numeric_test_alike :
  non_numeric_test rt op_name r1 a = non_numeric_test rt op_name r2 b.
Proof.
  unfold non_numeric_test.
  rewrite (with_defaults_alike rt Hr), (flag_alike rt Hab). now read_alike Hab.
Qed.

Lemma negative_value_test_alike :
  negative_value_test rt op_name r1 a = negative_value_test rt op_name r2 b.
Proof.
  unfold negative_value_test.
  rewrite (with_defaults_alike rt Hr), (flag_alike rt Hab). now read_alike Hab.
Qed.

Lemma special_characters_test_alike :
  special_characters_test rt op_name a = special_characters_test rt op_name b.
Proof. unfold special_characters_test. rewrite (flag_alike rt Hab). now read_alike Hab. Qed.

End Alike.

Lemma app_alike {A : Type} (x x' y y' : list A) :
  x = x' -> y = y' -> x ++ y = x' ++ y'.
Proof. now intros -> ->. Qed.

Lemma template_segments_alike rt op_name args1 args2 r1 r2 o1 o2 :
  Forall2 same_fields args1 args2 ->
  Forall2 same_fields r1 r2 ->
  Forall2 same_fields o1 o2 ->
  template_segments rt op_name args1 r1 o1 = template_segments rt op_name args2 r2 o2.
Proof.
  intros Ha Hr Ho. unfold template_segments.
  rewrite (smoke_test_alike rt op_name Hr), (dry_run_test_alike rt op_name Hr),
    (timeout_test_alike rt op_name Hr).
  repeat apply app_alike; try reflexivity.
  - apply Forall2_map_eq with (R := same_fields); [|exact Ha].
    intros a b Hab. now rewrite (variable_line_alike rt Hab).
  - apply Forall2_flat_map_eq with (R := same_fields); [|exact Ho].
    intros a b Hab. now rewrite (optional_arg_test_alike rt op_name Hr Hab).
  - apply Forall2_flat_map_eq with (R := same_fields); [|exact Hr].
    intros a b Hab. now rewrite (missing_required_test_alike rt op_name Hr Hab).
  - apply Forall2_flat_map_eq with (R := same_fields); [|exact Hr].
    intros a b Hab. now rewrite (empty_value_test_alike rt op_name Hab).
  - apply Forall2_flat_map_eq with (R := same_fields).
    + intros a b Hab.
      now rewrite (non_numeric_test_alike rt op_name Hr Hab),
        (negative_value_test_alike rt op_name Hr Hab).
    + apply Forall2_filter; auto. intros a b Hab. apply (is_int_arg_alike Hab).
  - apply Forall2_flat_map_eq with (R := same_fields); [|exact Hr].
    intros a b Hab. now rewrite (special_characters_test_alike rt op_name Hab).
Qed.

Lemma is_required_alike a b : same_argument a b -> is_required a = is_required b.
Proof.
  intros [d1 d2 H | x]; [|reflexivity].
  rewrite !is_required_dict. unfold required_flag, dict_get_default.
  now rewrite (same_fields_required H).
Qed.

Lemma is_optional_alike a b : same_argument a b -> is_optional a = is_optional b.
Proof.
  intros [d1 d2 H | x]; [|reflexivity].
  unfold is_optional, dict_get_default. now rewrite (same_fields_required H).
Qed.

Lemma normalize_arg_alike rt a b :
  same_argument a b -> same_fields (normalize_arg rt a) (normalize_arg rt b).
Proof. intros [d1 d2 H | x]; [exact H | apply same_fields_refl]. Qed.

Lemma normalized_alike rt l1 l2 :
  Forall2 same_argument l1 l2 ->
  Forall2 same_fields (map (normalize_arg rt) l1) (map (normalize_arg rt) l2).
Proof.
  intros H. induction H as [|a b l1 l2 Hab _ IH]; simpl; constructor; auto.
  now apply normalize_arg_alike.
Qed.

(** The partition raises on both lists, with the same exception, or returns
    lists that read alike. *)
Lemma required_of_alike l1 l2 :
  Forall2 same_argument l1 l2 ->
  match required_of l1, required_of l2 with
  | Ok r1, Ok r2 => Forall2 same_argument r1 r2
  | Raise e1, Raise e2 => e1 = e2
  | _, _ => False
  end.
Proof.
  intros H. induction H as [|a b l1 l2 Hab _ IH]; simpl; [constructor|].
  rewrite (is_required_alike Hab).
  destruct (is_required b) as [keep|e]; simpl; [|reflexivity].
  destruct (required_of l1) as [t1|e1], (required_of l2) as [t2|e2]; simpl; auto.
  destruct keep; auto.
Qed.

Lemma py_iter_alike v1 v2 :
  same_arguments v1 v2 ->
  match py_iter v1, py_iter v2 with
  | Ok l1, Ok l2 => Forall2 same_argument l1 l2
  | Raise e1, Raise e2 => e1 = e2
  | _, _ => False
  end.
Proof.
  intros [l1 l2 H | v]; simpl; [exact H|].
  destruct (py_iter v); [|reflexivity].
  apply Forall2_refl. apply same_argument_refl.
Qed.

(** C5.  [generate] is a function of its argument, and of that argument it
    reads the ["name"] entry and the ["args"] entry only, and of every
    argument dictionary the entries ["name"], ["required"], ["arg_type"] and
    ["default"] only: two inputs that agree on these yield the same result,
    byte for byte, whatever else they contain and in whatever order their
    dictionaries store their entries.  Nothing else (no clock, no global
    state) enters the result. *)
Theorem generate_deterministic :
  forall rt info1 info2,
    name_of info1 = name_of info2 ->
    same_arguments (args_of info1) (args_of info2) ->
    generate rt info1 = generate rt info2.
Proof.
  intros rt info1 info2 Hname Hargs.
  unfold generate, generate_segments.
  change (dict_get_default "args" (VList []) info1) with (args_of info1).
  change (dict_get_default "args" (VList []) info2) with (args_of info2).
  change (dict_get_default "name" (VConst (CStr "Unknown")) info1) with (name_of info1).
  change (dict_get_default "name" (VConst (CStr "Unknown")) info2) with (name_of info2).
  rewrite Hname.
  pose proof (py_iter_alike Hargs) as Hiter.
  destruct (py_iter (args_of info1)) as [l1|e1], (py_iter (args_of info2)) as [l2|e2];
    cbn [bind]; try contradiction; [|now subst].
  pose proof (required_of_alike Hiter) as Hreq.
  destruct (required_of l1) as [q1|e1], (required_of l2) as [q2|e2];
    cbn [bind]; try contradiction; [|now subst].
  rewrite (@template_segments_alike rt (name_of info2)
             (map (normalize_arg rt) l1) (map (normalize_arg rt) l2)
             (map (normalize_arg rt) q1) (map (normalize_arg rt) q2)
             (map (normalize_arg rt) (optional_of l1))
             (map (normalize_arg rt) (optional_of l2))).
  - reflexivity.
  - now apply normalized_alike.
  - now apply normalized_alike.
  - apply normalized_alike. unfold optional_of.
    apply Forall2_filter; auto. intros a b Hab. now apply is_optional_alike.
Qed.

Lemma generate_deterministic_witness :
  generate ascii_runtime deploy = generate ascii_runtime deploy_reordered.
Proof.
  apply generate_deterministic.
  - reflexivity.
  - apply same_arguments_list.
    repeat constructor; intros k Hk; simpl in Hk;
      repeat (destruct Hk as [Hk|Hk]; [subst k; reflexivity|]); contradiction.
Defined.

End TemplateFacts.

(* ===================================================================== *)
(** * Properties of the extraction engine *)
(* ===================================================================== *)

Module ScannerFacts.
Import Py Scanner.
Local Open Scope list_scope.

(** ** Python equality of constants is an equivalence *)

Lemma const_eqb_refl (c : constant) : const_eqb c c = true.
Proof.
  destruct c as [| b | z | s]; simpl; auto.
  - now destruct b.
  - apply Z.eqb_refl.
  - apply String.eqb_refl.
Qed.

Lemma const_eqb_sym (c d : constant) : const_eqb c d = const_eqb d c.
Proof.
  destruct c as [| a | y | s], d as [| b | z | t]; simpl; auto.
  - now destruct a, b.
  - apply Z.eqb_sym.
  - apply Z.eqb_sym.
  - apply Z.eqb_sym.
  - apply String.eqb_sym.
Qed.

Lemma const_eqb_trans (c d e : constant) :
  const_eqb c d = true -> const_eqb d e = true -> const_eqb c e = true.
Proof.
  destruct c as [| a | x | s], d as [| b | y | t], e as [| c | z | u];
    simpl; try discriminate; auto;
    rewrite ?Bool.eqb_true_iff, ?Z.eqb_eq, ?String.eqb_eq; intros; subst;
    try reflexivity; try congruence.
  - destruct a, c; simpl in *; congruence.
Qed.

(** ** Dictionaries keyed by operation name *)

Lemma op_mem_cons {V : Type} (k k' : constant) (v : V) (m : opmap V) :
  op_mem k ((k', v) :: m) = const_eqb k' k || op_mem k m.
Proof. unfold op_mem. simpl. now destruct (const_eqb k' k). Qed.

Lemma op_mem_set_same {V : Type} (k : constant) (v : V) (m : opmap V) :
  op_mem k (op_set k v m) = true.
Proof.
  unfold op_mem. induction m as [|[k' v'] m IH]; simpl.
  - now rewrite const_eqb_refl.
  - destruct (const_eqb k' k) eqn:Hk; simpl; rewrite Hk; auto.
Qed.

(** Assigning to a key keeps every key that was there. *)
Lemma op_mem_set_mono {V : Type} (k k' : constant) (v : V) (m : opmap V) :
  op_mem k (op_set k' v m) = op_mem k m || const_eqb k' k.
Proof.
  unfold op_mem. induction m as [|[k0 v0] m IH]; simpl.
  - now destruct (const_eqb k' k).
  - destruct (const_eqb k0 k') eqn:H0; simpl.
    + destruct (const_eqb k0 k) eqn:H1; simpl; auto.
      destruct (const_eqb k' k) eqn:H2; [|now rewrite orb_false_r].
      rewrite (const_eqb_trans _ _ _ H0 H2) in H1. discriminate.
    + destruct (const_eqb k0 k) eqn:H1; simpl; auto.
Qed.

Lemma op_mem_set {V : Type} (k k' : constant) (v : V) (m : opmap V) :
  op_mem k m = true -> op_mem k (op_set k' v m) = true.
Proof. intros H. now rewrite op_mem_set_mono, H. Qed.

(** ** The search for the entry point *)

Lemma locate_cli_operations (w : World) (self : RepoScanner) :
  operations (snd (locate_cli w self)) = operations self.
Proof.
  unfold locate_cli.
  destruct (path_exists w _); [reflexivity|].
  destruct (walk_matches w (repo_path self)); reflexivity.
Qed.

Lemma first_existing_missing (w : World) (root cli_path : string) (candidates : list string) :
  (forall c, In c candidates -> path_exists w (path_join root c) = false) ->
  first_existing w root candidates cli_path = cli_path.
Proof.
  induction candidates as [|c cs IH]; simpl; intros H; auto.
  rewrite (H c (or_introl eq_refl)). apply IH. intros c' Hc'. apply H. now right.
Qed.

Lemma flat_map_nil {A B : Type} (f : A -> list B) (l : list A) :
  (forall x, In x l -> f x = []) -> flat_map f l = [].
Proof.
  induction l as [|x l IH]; simpl; intros H; auto.
  rewrite (H x (or_introl eq_refl)). apply IH. intros y Hy. apply H. now right.
Qed.

Lemma walk_matches_nil (w : World) (root : string) :
  (forall dir dirs files,
      In (dir, dirs, files) (os_walk w root) -> In "service_console" dirs ->
      path_exists w (path_join (path_join dir "service_console") "cli.py") = false) ->
  walk_matches w root = [].
Proof.
  intros H. unfold walk_matches. apply flat_map_nil.
  intros [[dir dirs] files] Hin.
  destruct (existsb (String.eqb "service_console") dirs) eqn:Hex; [|reflexivity].
  apply existsb_exists in Hex. destruct Hex as [d [Hd Heq]].
  apply String.eqb_eq in Heq. subst d.
  now rewrite (H dir dirs files Hin Hd).
Qed.

(** C6.  When [cli.py] exists at none of the candidate paths and the
    directory-wide walk finds no [service_console/cli.py] either, the scan of
    a new scanner for that root returns the empty mapping and raises
    nothing.  (A scanner that has scanned before returns, without raising
    either, the operations it holds.) *)
Theorem scan_without_cli_is_empty :
  forall (w : World) (root : string),
    path_exists w (path_join (path_join root "service_console") "cli.py") = false ->
    (forall candidate, In candidate ["cli.py"; "service_console/cli.py"; "src/cli.py"] ->
       path_exists w (path_join root candidate) = false) ->
    (forall dir dirs files,
        In (dir, dirs, files) (os_walk w root) -> In "service_console" dirs ->
        path_exists w (path_join (path_join dir "service_console") "cli.py") = false) ->
    scan w (init root) = (init root, Ok [])
    /\ forall held,
         scan w {| repo_path := root; operations := held |}
         = ({| repo_path := root; operations := held |}, Ok held).
Proof.
  intros w root Hcli Hcand Hwalk.
  assert (Hany : forall held,
             scan w {| repo_path := root; operations := held |}
             = ({| repo_path := root; operations := held |}, Ok held)).
  { intros held. unfold scan, _parse_cli, locate_cli. simpl repo_path.
    rewrite Hcli. rewrite (first_existing_missing w root _ _ Hcand).
    rewrite Hcli. rewrite (walk_matches_nil w root Hwalk).
    rewrite Hcli. reflexivity. }
  split; [apply (Hany [])|exact Hany].
Qed.

Lemma scan_without_cli_is_empty_witness :
  scan Demo.empty_repo (init "/repo") = (init "/repo", Ok []).
Proof.
  refine (proj1 (scan_without_cli_is_empty Demo.empty_repo "/repo" _ _ _)).
  - reflexivity.
  - intros candidate Hc. reflexivity.
  - intros dir dirs files Hin. simpl in Hin. contradiction.
Defined.

(** C7.  When the entry-point file that the search settles on exists and
    its text has invalid syntax, [scan] raises [SyntaxError]: the exception
    of [ast.parse] leaves [_parse_cli] and [scan], no mapping is returned and
    the scanner's operations are as before the call. *)
Theorem scan_raises_on_unparsable_cli :
  forall (w : World) (self : RepoScanner) (source : string),
    path_exists w (fst (locate_cli w self)) = true ->
    read_text w (fst (locate_cli w self)) = Some source ->
    ast_parse w source = None ->
    snd (scan w self) = Raise SyntaxError
    /\ snd (_parse_cli w self) = Raise SyntaxError
    /\ operations (fst (scan w self)) = operations self.
Proof.
  intros w self source Hex Hread Hparse.
  pose proof (locate_cli_operations w self) as Hops.
  unfold scan, _parse_cli.
  destruct (locate_cli w self) as [cli_path self1]. simpl in *.
  rewrite Hex, Hread, Hparse. simpl. auto.
Qed.

Lemma scan_raises_on_unparsable_cli_witness :
  snd (scan Demo.repo_with_broken_cli (init "/repo")) = Raise SyntaxError
  /\ snd (_parse_cli Demo.repo_with_broken_cli (init "/repo")) = Raise SyntaxError
  /\ operations (fst (scan Demo.repo_with_broken_cli (init "/repo"))) = operations (init "/repo").
Proof.
  apply (scan_raises_on_unparsable_cli Demo.repo_with_broken_cli (init "/repo")
           (source := Demo.broken_source)); reflexivity.
Defined.

(** ** The loop of [scan] *)

(** [_parse_operation_script] reads [self.repo_path] and nothing else of the
    scanner. *)
Lemma parse_script_repo_path (w : World) (s1 s2 : RepoScanner) (op_info : OperationInfo) :
  repo_path s1 = repo_path s2 ->
  _parse_operation_script w s1 op_info = _parse_operation_script w s2 op_info.
Proof. unfold _parse_operation_script. now intros ->. Qed.

Lemma scan_operations_repo_path (w : World) (ops : opmap OperationInfo) :
  forall self, repo_path (fst (scan_operations w self ops)) = repo_path self.
Proof.
  induction ops as [|[name op_info] ops IH]; intros self; simpl; auto.
  destruct (_parse_operation_script w self op_info); simpl; auto.
  now rewrite IH.
Qed.

(** Whatever happens, the loop keeps every operation it found stored. *)
Lemma scan_operations_mono (w : World) (ops : opmap OperationInfo) (k : constant) :
  forall self,
    op_mem k (operations self) = true ->
    op_mem k (operations (fst (scan_operations w self ops))) = true.
Proof.
  induction ops as [|[name op_info] ops IH]; intros self Hk; simpl; auto.
  destruct (_parse_operation_script w self op_info); simpl; auto.
  apply IH. simpl. now apply op_mem_set.
Qed.

Lemma scan_mono (w : World) (self : RepoScanner) (k : constant) :
  op_mem k (operations self) = true ->
  op_mem k (operations (fst (scan w self))) = true.
Proof.
  intros Hk. unfold scan.
  pose proof (locate_cli_operations w self) as Hloc.
  assert (Hcli : operations (fst (_parse_cli w self)) = operations self).
  { unfold _parse_cli. destruct (locate_cli w self) as [cli_path self1]. simpl in Hloc.
    destruct (negb (path_exists w cli_path)); [exact Hloc|].
    destruct (read_text w cli_path); [|exact Hloc].
    destruct (ast_parse w s); exact Hloc. }
  destruct (_parse_cli w self) as [self1 [cli_operations|e]]; simpl in *.
  - pose proof (scan_operations_mono w cli_operations k self1) as Hmono.
    rewrite Hcli in Hmono. specialize (Hmono Hk).
    destruct (scan_operations w self1 cli_operations) as [self2 [u|e]]; exact Hmono.
  - now rewrite Hcli.
Qed.

(** What [scan] returns is the scanner's own [operations]. *)
Lemma scan_returns_operations (w : World) (self self' : RepoScanner)
    (m : opmap OperationInfo) :
  scan w self = (self', Ok m) -> m = operations self'.
Proof.
  unfold scan.
  destruct (_parse_cli w self) as [self1 [cli_operations|e]]; [|discriminate].
  destruct (scan_operations w self1 cli_operations) as [self2 [u|e]]; [|discriminate].
  now intros [= <- <-].
Qed.

(** C9.  A scanner accumulates: the mapping returned by a second [scan] of
    the same scanner has every key of the mapping returned by the first,
    whatever the repository looks like at the second scan. *)
Theorem scan_accumulates :
  forall (w1 w2 : World) (self self1 self2 : RepoScanner) (m1 m2 : opmap OperationInfo),
    scan w1 self = (self1, Ok m1) ->
    scan w2 self1 = (self2, Ok m2) ->
    forall k, op_mem k m1 = true -> op_mem k m2 = true.
Proof.
  intros w1 w2 self self1 self2 m1 m2 H1 H2 k Hk.
  rewrite (scan_returns_operations _ _ H1) in Hk.
  rewrite (scan_returns_operations _ _ H2).
  pose proof (scan_mono w2 self1 k Hk) as Hmono.
  now rewrite H2 in Hmono.
Qed.

(** [deploy] is gone from the repository at the second scan, and still in
    the mapping that the second scan returns. *)
Lemma scan_accumulates_witness :
  op_mem (CStr "deploy")
    (operations (fst (scan Demo.repo_without_deploy (fst (scan Demo.repo (init "/repo"))))))
  = true.
Proof.
  apply (scan_accumulates Demo.repo Demo.repo_without_deploy (init "/repo")
           (self1 := fst (scan Demo.repo (init "/repo")))
           (self2 := fst (scan Demo.repo_without_deploy (fst (scan Demo.repo (init "/repo")))))
           (m1 := operations (fst (scan Demo.repo (init "/repo"))))).
  - vm_compute. reflexivity.
  - vm_compute. reflexivity.
  - vm_compute. reflexivity.
Defined.

(** A new scanner on the second repository does not find [deploy]. *)
Example fresh_scan_drops_deploy :
  op_mem (CStr "deploy") (operations (fst (scan Demo.repo_without_deploy (init "/repo"))))
  = false.
Proof. vm_compute. reflexivity. Qed.

(** ** An operation script that does not parse *)

Lemma unparsable_script_raises (w : World) (self : RepoScanner) (op_info : OperationInfo)
    (script source : string) :
  resolve_script w (repo_path self) (script_path op_info) = Ok (Some script) ->
  read_text w script = Some source ->
  ast_parse w source = None ->
  _parse_operation_script w self op_info = Raise SyntaxError.
Proof.
  intros Hres Hread Hparse. unfold _parse_operation_script.
  rewrite Hres. simpl. now rewrite Hread, Hparse.
Qed.

Lemma scan_operations_raises (w : World) (ops : opmap OperationInfo)
    (name : constant) (op_info : OperationInfo) (e : exn) :
  forall self,
    In (name, op_info) ops ->
    _parse_operation_script w self op_info = Raise e ->
    raises (snd (scan_operations w self ops)) = true.
Proof.
  induction ops as [|[n o] ops IH]; intros self Hin Hraise; [contradiction|].
  simpl. destruct (_parse_operation_script w self o) as [o'|e'] eqn:Ho; [|reflexivity].
  destruct Hin as [Heq | Hin]; [congruence|].
  apply IH; auto.
Qed.

Lemma scan_operations_first_failure (w : World) (name : constant) (op_info : OperationInfo)
    (after : opmap OperationInfo) (e : exn) (before : opmap OperationInfo) :
  forall self,
    (forall kv, In kv before -> raises (_parse_operation_script w self (snd kv)) = false) ->
    _parse_operation_script w self op_info = Raise e ->
    snd (scan_operations w self (before ++ (name, op_info) :: after)) = Raise e
    /\ forall k,
         op_mem k (operations (fst (scan_operations w self (before ++ (name, op_info) :: after))))
         = op_mem k (operations self) || op_mem k before.
Proof.
  induction before as [|[n o] before IH]; intros self Hbefore Hraise; simpl.
  - rewrite Hraise. simpl. split; auto. intros k. unfold op_mem. simpl.
    now rewrite orb_false_r.
  - pose proof (Hbefore (n, o) (or_introl eq_refl)) as Ho. simpl in Ho.
    destruct (_parse_operation_script w self o) as [o'|e'] eqn:Hparse; [|discriminate].
    set (self' := {| repo_path := repo_path self; operations := op_set n o' (operations self) |}).
    destruct (IH self') as [Hres Hmem].
    + intros kv Hkv.
      rewrite (parse_script_repo_path w self' self (snd kv) eq_refl).
      apply Hbefore. now right.
    + now rewrite (parse_script_repo_path w self' self op_info eq_refl).
    + split; [exact Hres|]. intros k. rewrite Hmem. simpl operations.
      rewrite op_mem_set_mono, op_mem_cons.
      now destruct (op_mem k (operations self)), (const_eqb n k), (op_mem k before).
Qed.

(** C3 (as amended).  An operation script that does not parse is fatal:
    when the resolved script file of one operation of the registry has
    invalid syntax, [scan] raises instead of returning a mapping; and when
    the operations before it in registry order are parsed without error, the
    exception is the [SyntaxError] of that script, the operations before it
    have been stored in the scanner, and neither that operation nor those
    after it have been. *)
Theorem scan_aborts_on_unparsable_script :
  forall (w : World) (self self1 : RepoScanner) (ops : opmap OperationInfo)
         (name : constant) (op_info : OperationInfo) (script source : string),
    _parse_cli w self = (self1, Ok ops) ->
    In (name, op_info) ops ->
    resolve_script w (repo_path self1) (script_path op_info) = Ok (Some script) ->
    read_text w script = Some source ->
    ast_parse w source = None ->
    raises (snd (scan w self)) = true
    /\ forall before after,
         ops = before ++ (name, op_info) :: after ->
         (forall kv, In kv before ->
            raises (_parse_operation_script w self1 (snd kv)) = false) ->
         snd (scan w self) = Raise SyntaxError
         /\ forall k,
              op_mem k (operations (fst (scan w self)))
              = op_mem k (operations self1) || op_mem k before.
Proof.
  intros w self self1 ops name op_info script source Hcli Hin Hres Hread Hparse.
  pose proof (unparsable_script_raises w self1 op_info Hres Hread Hparse) as Hraise.
  unfold scan. rewrite Hcli. split.
  - pose proof (scan_operations_raises w ops name op_info self1 Hin Hraise) as H.
    destruct (scan_operations w self1 ops) as [self2 [u|e]]; [discriminate|reflexivity].
  - intros before after -> Hbefore.
    destruct (scan_operations_first_failure w name op_info after before self1 Hbefore Hraise)
      as [Hsnd Hmem].
    destruct (scan_operations w self1 (before ++ (name, op_info) :: after))
      as [self2 [u|e]]; simpl in *; [discriminate|].
    split; [congruence | exact Hmem].
Qed.

Lemma scan_aborts_on_unparsable_script_witness :
  raises (snd (scan Demo.repo_with_broken_script (init "/repo"))) = true
  /\ snd (scan Demo.repo_with_broken_script (init "/repo")) = Raise SyntaxError.
Proof.
  destruct (@scan_aborts_on_unparsable_script Demo.repo_with_broken_script (init "/repo")
              (init "/repo")
              [(CStr "backup", Demo.backup_operation);
               (CStr "deploy",
                merge_args (_parse_click_options Demo.cli_tree) Demo.deploy_operation)]
              (CStr "backup") Demo.backup_operation
              "/repo/ops/backup.py" Demo.broken_source)
    as [Hraises Hfirst].
  - vm_compute. reflexivity.
  - simpl. auto.
  - vm_compute. reflexivity.
  - vm_compute. reflexivity.
  - vm_compute. reflexivity.
  - split; [exact Hraises|].
    apply (Hfirst [] [(CStr "deploy",
                       merge_args (_parse_click_options Demo.cli_tree) Demo.deploy_operation)]).
    + reflexivity.
    + intros kv Hkv. simpl in Hkv. contradiction.
Defined.

(** C3 as stated fails: the entry point of this repository parses, the
    script of its operation [backup] resolves and has invalid syntax, and the
    scan aborts with [SyntaxError]; [deploy], whose script is fine, is not
    processed. *)
Lemma unparsable_script_aborts_scan :
  snd (_parse_cli Demo.repo_with_broken_script (init "/repo"))
  = Ok [(CStr "backup", Demo.backup_operation);
        (CStr "deploy",
         merge_args (_parse_click_options Demo.cli_tree) Demo.deploy_operation)]
  /\ resolve_script Demo.repo_with_broken_script "/repo" (script_path Demo.backup_operation)
     = Ok (Some "/repo/ops/backup.py")
  /\ read_text Demo.repo_with_broken_script "/repo/ops/backup.py" = Some Demo.broken_source
  /\ ast_parse Demo.repo_with_broken_script Demo.broken_source = None
  /\ scan Demo.repo_with_broken_script (init "/repo") = (init "/repo", Raise SyntaxError)
  /\ op_mem (CStr "deploy")
       (operations (fst (scan Demo.repo_with_broken_script (init "/repo")))) = false.
Proof. repeat split; vm_compute; reflexivity. Qed.

(** ** Operations as the registry extraction builds them *)

Lemma op_set_entries (k : constant) (v : OperationInfo) (m : opmap OperationInfo) :
  registry_entry v -> all_entries m -> all_entries (op_set k v m).
Proof.
  intros Hv. induction m as [|[k' v'] m IH]; intros Hm name op_info Hin; simpl in Hin.
  - destruct Hin as [[= <- <-]|[]]. exact Hv.
  - destruct (const_eqb k' k).
    + destruct Hin as [[= <- <-]|Hin]; [exact Hv|].
      apply (Hm name op_info). now right.
    + destruct Hin as [[= <- <-]|Hin].
      * apply (Hm k' v'). now left.
      * apply (IH (fun n o H => Hm n o (or_intror H)) name op_info Hin).
Qed.

Lemma extract_args_required (elts : list ast.node) :
  forall acc a,
    Forall (fun x => required x = true) acc ->
    extract_args elts acc = Ok a ->
    Forall (fun x => required x = true) a.
Proof.
  induction elts as [|elt elts IH]; intros acc a Hacc H; simpl in H.
  - now injection H as <-.
  - destruct elt; try (now apply (IH acc a Hacc H)).
    destruct (normalize_flag value) as [arg_name|e]; simpl in H; [|discriminate].
    apply (IH _ a) in H; auto.
    apply Forall_app. split; auto.
Qed.

Lemma extract_entry_required (k : option ast.node) (v : ast.node) (d d' : op_data) :
  Forall (fun x => required x = true) (od_args d) ->
  extract_entry k v d = Ok d' ->
  Forall (fun x => required x = true) (od_args d').
Proof.
  intros Hd H. unfold extract_entry in H.
  destruct k as [[kv| | | | | | | |]|]; try (injection H as <-; exact Hd).
  destruct v; try (injection H as <-; exact Hd).
  - destruct (const_eqb kv (CStr "description")); [now injection H as <-|].
    destruct (const_eqb kv (CStr "script")); now injection H as <-.
  - destruct (const_eqb kv (CStr "args")); [|now injection H as <-].
    destruct (extract_args elts (od_args d)) as [a|e] eqn:Ha; simpl in H; [|discriminate].
    injection H as <-. simpl. exact (extract_args_required elts Hd Ha).
Qed.

Lemma extract_entries_required (kvs : list (option ast.node * ast.node)) :
  forall d d',
    Forall (fun x => required x = true) (od_args d) ->
    extract_entries kvs d = Ok d' ->
    Forall (fun x => required x = true) (od_args d').
Proof.
  induction kvs as [|[k v] kvs IH]; intros d d' Hd H; simpl in H.
  - now injection H as <-.
  - destruct (extract_entry k v d) as [d1|e] eqn:H1; simpl in H; [|discriminate].
    apply (IH d1 d'); auto. exact (extract_entry_required k v d Hd H1).
Qed.

Lemma new_operation_entry (n d s : constant) (a : list OperationArg) :
  Forall (fun x => required x = true) a -> registry_entry (new_operation n d s a).
Proof. intros Ha. unfold registry_entry. simpl. auto. Qed.

Lemma extract_operation_entries (key : option ast.node) (value : ast.node)
    (ops ops' : opmap OperationInfo) :
  all_entries ops -> extract_operation key value ops = Ok ops' -> all_entries ops'.
Proof.
  intros Hops H. unfold extract_operation in H.
  destruct key as [[op_name| | | | | | | |]|]; try (injection H as <-; exact Hops).
  destruct (match value with
            | ast.Dict keys values => extract_entries (combine keys values) empty_op_data
            | _ => Ok empty_op_data
            end) as [d|e] eqn:Hd; simpl in H; [|discriminate].
  injection H as <-. apply op_set_entries; auto.
  apply new_operation_entry.
  destruct value; try (injection Hd as <-; constructor).
  eapply extract_entries_required; [|exact Hd]. constructor.
Qed.

Lemma extract_operations_entries (kvs : list (option ast.node * ast.node)) :
  forall ops ops',
    all_entries ops -> extract_operations kvs ops = Ok ops' -> all_entries ops'.
Proof.
  induction kvs as [|[key value] kvs IH]; intros ops ops' Hops H; simpl in H.
  - now injection H as <-.
  - destruct (extract_operation key value ops) as [ops1|e] eqn:H1; simpl in H; [|discriminate].
    apply (IH ops1 ops'); auto. exact (extract_operation_entries key value Hops H1).
Qed.

Lemma all_entries_nil : all_entries [].
Proof. intros name op_info []. Qed.

Lemma extract_operations_dict_entries (node : ast.node) (ops : opmap OperationInfo) :
  _extract_operations_dict node = Ok ops -> all_entries ops.
Proof.
  unfold _extract_operations_dict.
  destruct node; try (intros [= <-]; apply all_entries_nil).
  apply extract_operations_entries. apply all_entries_nil.
Qed.

Lemma assign_targets_entries (targets : list ast.node) (value : ast.node) :
  forall ops ops',
    all_entries ops -> assign_targets targets value ops = Ok ops' -> all_entries ops'.
Proof.
  induction targets as [|target targets IH]; intros ops ops' Hops H; simpl in H.
  - now injection H as <-.
  - destruct (is_registry_name target); [|now apply (IH ops ops')].
    destruct (_extract_operations_dict value) as [ops1|e] eqn:H1; simpl in H; [|discriminate].
    apply (IH ops1 ops'); auto. exact (extract_operations_dict_entries value H1).
Qed.

Lemma find_registry_entries (nodes : list ast.node) :
  forall ops ops',
    all_entries ops -> find_registry nodes ops = Ok ops' -> all_entries ops'.
Proof.
  induction nodes as [|node nodes IH]; intros ops ops' Hops H; simpl in H.
  - now injection H as <-.
  - destruct node; try (now apply (IH ops ops')).
    destruct (assign_targets targets node ops) as [ops1|e] eqn:H1; simpl in H; [|discriminate].
    apply (IH ops1 ops'); auto. exact (assign_targets_entries targets node Hops H1).
Qed.

(** ** The merge of the option records *)

Lemma merge_option_name (arg cli_arg : OperationArg) :
  name (merge_option arg cli_arg) = name arg
  /\ required (merge_option arg cli_arg) = required arg.
Proof. unfold merge_option. destruct (String.eqb (name cli_arg) (name arg)); auto. Qed.

Lemma merge_arg_name (cli_args : list OperationArg) :
  forall arg,
    name (merge_arg cli_args arg) = name arg
    /\ required (merge_arg cli_args arg) = required arg.
Proof.
  unfold merge_arg. induction cli_args as [|c cli_args IH]; intros arg; simpl; auto.
  destruct (IH (merge_option arg c)) as [Hn Hr].
  destruct (merge_option_name arg c) as [Hn' Hr'].
  split; congruence.
Qed.








Lemma merge_args_entry (cli_args : list OperationArg) (op_info : OperationInfo) :
  registry_entry op_info -> registry_entry (merge_args cli_args op_info).
Proof.
  intros (Hf & He & Hc & Hs & Hr). unfold registry_entry. simpl.
  repeat split; auto.
  apply Forall_map. apply Forall_impl with (2 := Hr).
  intros a Ha. now rewrite (proj2 (merge_arg_name cli_args a)).
Qed.

Lemma merge_cli_args_entries (cli_args : list OperationArg) (ops : opmap OperationInfo) :
  all_entries ops -> all_entries (merge_cli_args cli_args ops).
Proof.
  intros Hops name op_info Hin. unfold merge_cli_args in Hin.
  apply in_map_iff in Hin. destruct Hin as [[k v] [[= <- <-] Hin]].
  apply merge_args_entry. now apply (Hops k v).
Qed.

(** Every operation that [_parse_cli] returns is a registry entry: nothing
    scanned yet, every argument required. *)
Lemma parse_cli_entries (w : World) (self self1 : RepoScanner) (ops : opmap OperationInfo) :
  _parse_cli w self = (self1, Ok ops) -> all_entries ops.
Proof.
  unfold _parse_cli. destruct (locate_cli w self) as [cli_path self'].
  destruct (negb (path_exists w cli_path)).
  - intros [= _ <-]. apply all_entries_nil.
  - destruct (read_text w cli_path) as [source|]; [|discriminate].
    destruct (ast_parse w source) as [tree|]; [|discriminate].
    destruct (find_registry (ast.walk tree) []) as [registry|e] eqn:Hreg; simpl;
      [|discriminate].
    intros [= _ <-]. apply merge_cli_args_entries.
    exact (find_registry_entries (ast.walk tree) all_entries_nil Hreg).
Qed.



(** ** Error conditions *)

Lemma entries_of_kind_app (kind : string) (l1 l2 : list ErrorCondition) :
  entries_of_kind kind (l1 ++ l2) = entries_of_kind kind l1 + entries_of_kind kind l2.
Proof. unfold entries_of_kind. now rewrite filter_app, length_app. Qed.

Lemma error_condition_kind (w : World) (source : string) (p : string * string) (kind : string) :
  entries_of_kind kind (error_condition w source p)
  = match re_findall w (fst p) source with
    | [] => 0
    | _ => if String.eqb (snd p) kind then 1 else 0
    end.
Proof.
  unfold error_condition, entries_of_kind.
  destruct (re_findall w (fst p) source); simpl; auto.
  now destruct (String.eqb (snd p) kind).
Qed.

Lemma entries_of_other_kind (w : World) (source kind : string) (ps : list (string * string)) :
  ~ In kind (map snd ps) ->
  entries_of_kind kind (flat_map (error_condition w source) ps) = 0.
Proof.
  induction ps as [|p ps IH]; simpl; intros Hnot; auto.
  rewrite entries_of_kind_app, error_condition_kind, IH by tauto.
  destruct (re_findall w (fst p) source); auto.
  destruct (String.eqb (snd p) kind) eqn:Hk; auto.
  apply String.eqb_eq in Hk. tauto.
Qed.

(** With pairwise distinct kinds, a pattern of the table has one entry when
    it matches and none when it does not. *)
Lemma entries_of_table_kind (w : World) (source : string) (ps : list (string * string)) :
  NoDup (map snd ps) ->
  forall pattern kind,
    In (pattern, kind) ps ->
    entries_of_kind kind (flat_map (error_condition w source) ps)
    = match re_findall w pattern source with [] => 0 | _ => 1 end.
Proof.
  induction ps as [|p ps IH]; simpl; intros Hnd pattern kind Hin; [contradiction|].
  inversion Hnd as [|? ? Hhead Htail]; subst.
  rewrite entries_of_kind_app, error_condition_kind.
  destruct Hin as [-> | Hin].
  - simpl. rewrite String.eqb_refl, (entries_of_other_kind w source kind ps Hhead).
    destruct (re_findall w pattern source); reflexivity.
  - rewrite (IH Htail pattern kind Hin).
    assert (Hne : String.eqb (snd p) kind = false).
    { apply String.eqb_neq. intros Heq. apply Hhead. rewrite Heq.
      apply in_map_iff. exists (pattern, kind). auto. }
    rewrite Hne. destruct (re_findall w (fst p) source); reflexivity.
Qed.

Lemma error_conditions_sound (w : World) (source : string) (ps : list (string * string))
    (e : ErrorCondition) :
  In e (flat_map (error_condition w source) ps) ->
  In (ec_pattern e, ec_type e) ps
  /\ ec_count e = List.length (re_findall w (ec_pattern e) source)
  /\ 0 < ec_count e.
Proof.
  intros Hin. apply in_flat_map in Hin. destruct Hin as [[pattern kind] [Hp He]].
  unfold error_condition in He. simpl in He.
  destruct (re_findall w pattern source) as [|m ms] eqn:Hm; [contradiction|].
  destruct He as [<-|[]]. simpl. rewrite Hm. simpl. repeat split; auto. lia.
Qed.

Lemma error_conditions_complete (w : World) (source : string) (ps : list (string * string))
    (pattern kind : string) :
  In (pattern, kind) ps ->
  re_findall w pattern source <> [] ->
  In {| ec_type := kind; ec_count := List.length (re_findall w pattern source);
        ec_pattern := pattern |}
     (flat_map (error_condition w source) ps).
Proof.
  intros Hin Hne. apply in_flat_map. exists (pattern, kind). split; auto.
  unfold error_condition. simpl.
  destruct (re_findall w pattern source); [contradiction|]. now left.
Qed.

Lemma error_kinds_distinct : NoDup (map snd error_patterns).
Proof.
  simpl. repeat constructor; simpl; intuition discriminate.
Qed.

(** C8.  For an operation of the registry whose script is found, read and
    parsed, the scanned operation has, for each of the five patterns of the
    table, exactly one error condition of the pattern's kind when the
    pattern matches the script text, recording the kind and the number of
    matches, and none when it does not match; there are no other entries,
    and no entry has the count zero. *)
Theorem error_conditions_per_pattern :
  forall (w : World) (self0 self : RepoScanner) (ops : opmap OperationInfo)
         (op_name : constant) (op_info op_info' : OperationInfo) (script source : string),
    _parse_cli w self0 = (self, Ok ops) ->
    In (op_name, op_info) ops ->
    resolve_script w (repo_path self) (script_path op_info) = Ok (Some script) ->
    read_text w script = Some source ->
    _parse_operation_script w self op_info = Ok op_info' ->
    List.length error_patterns = 5
    /\ (forall pattern kind,
          In (pattern, kind) error_patterns ->
          (re_findall w pattern source <> [] ->
             entries_of_kind kind (error_conditions op_info') = 1
             /\ In {| ec_type := kind;
                      ec_count := List.length (re_findall w pattern source);
                      ec_pattern := pattern |}
                   (error_conditions op_info'))
          /\ (re_findall w pattern source = [] ->
                entries_of_kind kind (error_conditions op_info') = 0))
    /\ (forall e,
          In e (error_conditions op_info') ->
          In (ec_pattern e, ec_type e) error_patterns
          /\ ec_count e = List.length (re_findall w (ec_pattern e) source)
          /\ 0 < ec_count e).
Proof.
  intros w self0 self ops op_name op_info op_info' script source Hcli Hin Hres Hread Hparse.
  destruct (parse_cli_entries w self0 Hcli op_name op_info Hin) as (_ & _ & Hempty & _).
  assert (Hec : error_conditions op_info' = scan_error_conditions w source).
  { unfold _parse_operation_script in Hparse. rewrite Hres in Hparse. simpl in Hparse.
    rewrite Hread in Hparse.
    destruct (ast_parse w source) as [tree|]; [|discriminate].
    injection Hparse as <-. simpl. now rewrite Hempty. }
  rewrite Hec. unfold scan_error_conditions.
  split; [reflexivity|]. split.
  - intros pattern kind Hp.
    pose proof (entries_of_table_kind w source error_patterns error_kinds_distinct
                  pattern kind Hp) as Hcount.
    split.
    + intros Hne. split.
      * rewrite Hcount. destruct (re_findall w pattern source); [contradiction|reflexivity].
      * now apply error_conditions_complete.
    + intros Heq. rewrite Hcount. now rewrite Heq.
  - intros e He. now apply error_conditions_sound.
Qed.

Lemma error_conditions_per_pattern_witness :
  entries_of_kind "failure_return"
    (error_conditions (Demo.scanned Demo.repo Demo.merged_deploy_operation)) = 1
  /\ In {| ec_type := "failure_return";
           ec_count := List.length (re_findall Demo.repo "return 1" Demo.deploy_source);
           ec_pattern := "return 1" |}
        (error_conditions (Demo.scanned Demo.repo Demo.merged_deploy_operation)).
Proof.
  destruct (@error_conditions_per_pattern Demo.repo (init "/repo") (init "/repo")
              [(CStr "backup", Demo.backup_operation);
               (CStr "deploy", Demo.merged_deploy_operation)]
              (CStr "deploy") Demo.merged_deploy_operation
              (Demo.scanned Demo.repo Demo.merged_deploy_operation)
              "/repo/ops/deploy.py" Demo.deploy_source)
    as (_ & Hpatterns & _).
  - vm_compute. reflexivity.
  - simpl. auto.
  - vm_compute. reflexivity.
  - vm_compute. reflexivity.
  - vm_compute. reflexivity.
  - destruct (Hpatterns "return 1" "failure_return") as [Hmatch _].
    + simpl. auto 6.
    + apply Hmatch. vm_compute. discriminate.
Defined.

(** In this repository [deploy] has two error conditions, and none with the
    count zero. *)
Example deploy_error_conditions :
  error_conditions (Demo.scanned Demo.repo Demo.merged_deploy_operation)
  = [{| ec_type := "exit_code"; ec_count := 1; ec_pattern := "sys\.exit\((\d+)\)" |};
     {| ec_type := "failure_return"; ec_count := 2; ec_pattern := "return 1" |}].
Proof. vm_compute. reflexivity. Qed.

End ScannerFacts.

(* ===================================================================== *)
(** * Properties of the change-set differ *)
(* ===================================================================== *)

Module OrchestratorFacts.
Import Py Scanner Orchestrator ScannerFacts.
Local Open Scope list_scope.

(** Lookups do not distinguish names that are equal for Python. *)
Lemma op_get_equiv {V : Type} (k x : constant) (m : opmap V) :
  const_eqb k x = true -> op_get k m = op_get x m.
Proof.
  intros Hkx. induction m as [|[k0 v0] m IH]; simpl; auto.
  rewrite IH.
  destruct (const_eqb k0 k) eqn:H0, (const_eqb k0 x) eqn:H1; auto.
  - rewrite (const_eqb_trans _ _ _ H0 Hkx) in H1. discriminate.
  - rewrite const_eqb_sym in Hkx.
    rewrite (const_eqb_trans _ _ _ H1 Hkx) in H0. discriminate.
Qed.

Lemma op_mem_equiv {V : Type} (k x : constant) (m : opmap V) :
  const_eqb k x = true -> op_mem k m = op_mem x m.
Proof. intros H. unfold op_mem. now rewrite (@op_get_equiv V k x m H). Qed.

Lemma name_in_keys {V : Type} (k : constant) (m : opmap V) :
  name_in k (op_keys m) = op_mem k m.
Proof.
  unfold name_in, op_keys. induction m as [|[k0 v0] m IH]; simpl; auto.
  rewrite op_mem_cons, IH. now rewrite (const_eqb_sym k k0).
Qed.

Lemma name_in_app (k : constant) (l1 l2 : list constant) :
  name_in k (l1 ++ l2) = name_in k l1 || name_in k l2.
Proof. unfold name_in. apply existsb_app. Qed.

Lemma name_in_filter (k : constant) (p : constant -> bool) (l : list constant) :
  name_in k (filter p l) = true <->
  exists x, In x l /\ p x = true /\ const_eqb k x = true.
Proof.
  unfold name_in. rewrite existsb_exists. split.
  - intros [x [Hin Hk]]. apply filter_In in Hin. destruct Hin as [Hin Hp]. eauto.
  - intros [x [Hin [Hp Hk]]]. exists x. split; auto. apply filter_In. auto.
Qed.

Lemma op_get_key {V : Type} (k : constant) (v : V) (m : opmap V) :
  op_get k m = Some v -> exists x, In x (op_keys m) /\ const_eqb k x = true.
Proof.
  induction m as [|[k0 v0] m IH]; simpl; [discriminate|].
  destruct (const_eqb k0 k) eqn:H0.
  - intros _. exists k0. split; auto. now rewrite const_eqb_sym.
  - intros H. destruct (IH H) as [x [Hin Hx]]. eauto.
Qed.

Lemma key_is_member {V : Type} (x : constant) (m : opmap V) :
  In x (op_keys m) -> op_mem x m = true.
Proof.
  intros Hin. rewrite <- name_in_keys. unfold name_in. apply existsb_exists.
  exists x. split; auto. apply const_eqb_refl.
Qed.

(** The names that [new_operations] returns: those of the current mapping
    that are missing from the previous one, or whose source text differs
    from the previous one. *)
Lemma new_operations_spec (previous : opmap (dict constant)) (current : opmap OperationInfo)
    (k : constant) :
  name_in k (new_operations previous current) = true <->
  exists op_info,
    op_get k current = Some op_info
    /\ (op_get k previous = None
        \/ exists entry,
             op_get k previous = Some entry
             /\ const_eqb (CStr (source_code op_info))
                          (dict_get_default "source_code" (CStr "") entry) = false).
Proof.
  unfold new_operations. rewrite name_in_app, orb_true_iff.
  unfold set_difference, set_intersection. rewrite !name_in_filter. split.
  - intros [[x (Hin & Hp & Hk)] | [x (Hin & Hp & Hk)]].
    + pose proof (key_is_member x current Hin) as Hmem.
      rewrite <- (@op_mem_equiv _ k x current Hk) in Hmem. unfold op_mem in Hmem.
      destruct (op_get k current) as [op_info|] eqn:Hget; [|discriminate].
      exists op_info. split; auto. left.
      rewrite name_in_keys, <- (@op_mem_equiv _ k x previous Hk) in Hp.
      unfold op_mem in Hp. now destruct (op_get k previous).
    + apply filter_In in Hin. destruct Hin as [Hin Hprev].
      unfold source_changed in Hp.
      rewrite <- (@op_get_equiv _ k x current Hk) in Hp.
      rewrite <- (@op_get_equiv _ k x previous Hk) in Hp.
      destruct (op_get k current) as [op_info|] eqn:Hget; [|discriminate].
      exists op_info. split; auto.
      rewrite name_in_keys, <- (@op_mem_equiv _ k x previous Hk) in Hprev.
      unfold op_mem in Hprev.
      destruct (op_get k previous) as [entry|]; [|discriminate].
      right. exists entry. split; auto. now apply negb_true_iff.
  - intros [op_info [Hget Hcase]].
    destruct (op_get_key k current Hget) as [x [Hin Hk]].
    destruct Hcase as [Hnone | [entry [Hprev Hdiff]]].
    + left. exists x. repeat split; auto.
      rewrite name_in_keys, <- (@op_mem_equiv _ k x previous Hk).
      unfold op_mem. now rewrite Hnone.
    + right. exists x. repeat split; auto.
      * apply filter_In. split; auto.
        rewrite name_in_keys, <- (@op_mem_equiv _ k x previous Hk).
        unfold op_mem. now rewrite Hprev.
      * unfold source_changed.
        rewrite <- (@op_get_equiv _ k x current Hk), Hget.
        rewrite <- (@op_get_equiv _ k x previous Hk), Hprev.
        now apply negb_true_iff.
Qed.

(** C4.  The names that [scan_for_changes] returns, for the mapping
    [current] that its scan returns: without a previous mapping, every
    current name; with one, exactly the names of [current] that are missing
    from the previous mapping or whose source text differs from the previous
    one, so that a name that is only in the previous mapping is not
    returned.  On the specification's examples: previous {A: src1} against
    current {A: src2, B: src3} gives {A, B}; identical snapshots give
    nothing; previous {A, B} against current {A} gives nothing.
    Membership is up to Python's [==]. *)
Theorem scan_for_changes_names :
  (forall (w : World) (self self' : TestAutomationAgent)
          (previous_operations : option (opmap (dict constant))) (names : list constant),
      scan_for_changes w self previous_operations = (self', Ok names) ->
      exists current,
        snd (scan w (scanner self)) = Ok current
        /\ match previous_operations with
           | None => names = op_keys current
           | Some previous =>
               (forall k,
                   name_in k names = true <->
                   exists op_info,
                     op_get k current = Some op_info
                     /\ (op_get k previous = None
                         \/ exists entry,
                              op_get k previous = Some entry
                              /\ const_eqb (CStr (source_code op_info))
                                   (dict_get_default "source_code" (CStr "") entry)
                                 = false))
               /\ (forall k, op_mem k current = false -> name_in k names = false)
           end)
  /\ (forall k,
        name_in k (new_operations (Demo.previous_snapshot [("A", "src1")])
                                  (Demo.snapshot [("A", "src2"); ("B", "src3")]))
        = name_in k [CStr "A"; CStr "B"])
  /\ new_operations (Demo.previous_snapshot [("A", "src1"); ("B", "src3")])
                    (Demo.snapshot [("A", "src1"); ("B", "src3")]) = []
  /\ new_operations (Demo.previous_snapshot [("A", "src1"); ("B", "src3")])
                    (Demo.snapshot [("A", "src1")]) = [].
Proof.
  split; [|split; [|split]].
  - intros w self self' previous_operations names H.
    unfold scan_for_changes in H.
    destruct (scan w (scanner self)) as [sc [current|e]]; [|discriminate].
    exists current. split; [reflexivity|].
    destruct previous_operations as [previous|].
    + injection H as _ <-. split.
      * intros k. apply new_operations_spec.
      * intros k Hk.
        destruct (name_in k (new_operations previous current)) eqn:Hin; auto.
        apply new_operations_spec in Hin. destruct Hin as [op_info [Hget _]].
        unfold op_mem in Hk. rewrite Hget in Hk. discriminate.
    + now injection H as _ <-.
  - intros k. vm_compute new_operations. unfold name_in. simpl.
    now destruct (const_eqb k (CStr "A")), (const_eqb k (CStr "B")).
  - vm_compute. reflexivity.
  - vm_compute. reflexivity.
Qed.

(** With the previous snapshot of [backup] alone, the scan of the demo
    repository reports [deploy], and only it. *)
Lemma scan_for_changes_names_witness :
  exists current,
    snd (scan Demo.repo (scanner Demo.new_agent)) = Ok current
    /\ (forall k,
           name_in k [CStr "deploy"] = true <->
           exists op_info,
             op_get k current = Some op_info
             /\ (op_get k (Demo.previous_snapshot [("backup", Demo.backup_source)]) = None
                 \/ exists entry,
                      op_get k (Demo.previous_snapshot [("backup", Demo.backup_source)])
                      = Some entry
                      /\ const_eqb (CStr (source_code op_info))
                           (dict_get_default "source_code" (CStr "") entry)
                         = false))
    /\ (forall k, op_mem k current = false -> name_in k [CStr "deploy"] = false).
Proof.
  apply (proj1 scan_for_changes_names Demo.repo Demo.new_agent
           (fst (scan_for_changes Demo.repo Demo.new_agent
                   (Some (Demo.previous_snapshot [("backup", Demo.backup_source)]))))
           (Some (Demo.previous_snapshot [("backup", Demo.backup_source)]))
           [CStr "deploy"]).
  vm_compute. reflexivity.
Defined.

End OrchestratorFacts.

(* ===================================================================== *)
(** * Further properties of the extraction engine *)
(* ===================================================================== *)

Module ScannerExtras.
Import Py Scanner Generation ScannerFacts.
Local Open Scope list_scope.

(** ** The arguments a registry entry declares *)

(** The loop over the elements of an ["args"] list literal, in closed form. *)
Lemma extract_args_closed_form (elts : list ast.node) :
  forall acc : list OperationArg,
    extract_args elts acc
    = if existsb other_constant elts then Raise AttributeError
      else Ok (acc ++ map (fun s => new_arg (replace_char "-" "_" (lstrip_char "-" s)) true)
                          (declared_flags elts)).
Proof.
  induction elts as [|elt elts IH]; intros acc; simpl.
  - now rewrite app_nil_r.
  - destruct elt as [[| b | z | s] | | | | | | | |]; simpl; auto.
    rewrite IH. destruct (existsb other_constant elts); auto.
    now rewrite <- app_assoc.
Qed.


(** ** Invariants of the registry extraction

    A property [Q] of mappings that holds of the empty mapping and that
    assignments of good operations preserve holds of every registry that
    [find_registry] returns, when the operations built from arguments that
    satisfy [P] are good and the arguments built from flags satisfy [P]. *)
Section RegistryInvariant.

Variable P : OperationArg -> Prop.
Variable good : OperationInfo -> Prop.
Variable Q : opmap OperationInfo -> Prop.

Hypothesis P_flag : forall s, P (new_arg (replace_char "-" "_" (lstrip_char "-" s)) true).
Hypothesis good_new : forall n d s a, Forall P a -> good (new_operation n d s a).
Hypothesis Q_nil : Q [].
Hypothesis Q_set : forall k v m, good v -> Q m -> Q (op_set k v m).

Lemma extract_args_inv (elts : list ast.node) (acc a : list OperationArg) :
  Forall P acc -> extract_args elts acc = Ok a -> Forall P a.
Proof.
  intros Hacc. rewrite extract_args_closed_form.
  destruct (existsb other_constant elts); [discriminate|].
  intros [= <-]. apply Forall_app. split; auto.
  apply Forall_map. apply Forall_forall. intros s _. apply P_flag.
Qed.

Lemma extract_entry_inv (k : option ast.node) (v : ast.node) (d d' : op_data) :
  Forall P (od_args d) -> extract_entry k v d = Ok d' -> Forall P (od_args d').
Proof.
  intros Hd H. unfold extract_entry in H.
  destruct k as [[kv| | | | | | | |]|]; try (injection H as <-; exact Hd).
  destruct v; try (injection H as <-; exact Hd).
  - destruct (const_eqb kv (CStr "description")); [now injection H as <-|].
    destruct (const_eqb kv (CStr "script")); now injection H as <-.
  - destruct (const_eqb kv (CStr "args")); [|now injection H as <-].
    destruct (extract_args elts (od_args d)) as [a|e] eqn:Ha; simpl in H; [|discriminate].
    injection H as <-. simpl. exact (extract_args_inv elts Hd Ha).
Qed.

Lemma extract_entries_inv (kvs : list (option ast.node * ast.node)) :
  forall d d', Forall P (od_args d) -> extract_entries kvs d = Ok d' -> Forall P (od_args d').
Proof.
  induction kvs as [|[k v] kvs IH]; intros d d' Hd H; simpl in H.
  - now injection H as <-.
  - destruct (extract_entry k v d) as [d1|e] eqn:H1; simpl in H; [|discriminate].
    apply (IH d1 d'); auto. exact (extract_entry_inv k v d Hd H1).
Qed.

Lemma extract_operation_inv (key : option ast.node) (value : ast.node)
    (ops ops' : opmap OperationInfo) :
  Q ops -> extract_operation key value ops = Ok ops' -> Q ops'.
Proof.
  intros Hops H. unfold extract_operation in H.
  destruct key as [[n| | | | | | | |]|]; try (injection H as <-; exact Hops).
  destruct (match value with
            | ast.Dict keys values => extract_entries (combine keys values) empty_op_data
            | _ => Ok empty_op_data
            end) as [d|e] eqn:Hd; simpl in H; [|discriminate].
  injection H as <-. apply Q_set; auto. apply good_new.
  destruct value; try (injection Hd as <-; constructor).
  eapply extract_entries_inv; [|exact Hd]. constructor.
Qed.

Lemma extract_operations_inv (kvs : list (option ast.node * ast.node)) :
  forall ops ops', Q ops -> extract_operations kvs ops = Ok ops' -> Q ops'.
Proof.
  induction kvs as [|[key value] kvs IH]; intros ops ops' Hops H; simpl in H.
  - now injection H as <-.
  - destruct (extract_operation key value ops) as [ops1|e] eqn:H1; simpl in H; [|discriminate].
    apply (IH ops1 ops'); auto. exact (extract_operation_inv key value Hops H1).
Qed.

Lemma extract_operations_dict_inv (node : ast.node) (ops : opmap OperationInfo) :
  _extract_operations_dict node = Ok ops -> Q ops.
Proof.
  unfold _extract_operations_dict.
  destruct node; try (intros [= <-]; exact Q_nil).
  apply extract_operations_inv. exact Q_nil.
Qed.

Lemma assign_targets_inv (targets : list ast.node) (value : ast.node) :
  forall ops ops', Q ops -> assign_targets targets value ops = Ok ops' -> Q ops'.
Proof.
  induction targets as [|target targets IH]; intros ops ops' Hops H; simpl in H.
  - now injection H as <-.
  - destruct (is_registry_name target); [|now apply (IH ops ops')].
    destruct (_extract_operations_dict value) as [ops1|e] eqn:H1; simpl in H; [|discriminate].
    apply (IH ops1 ops'); auto. exact (extract_operations_dict_inv value H1).
Qed.

Lemma find_registry_inv (nodes : list ast.node) :
  forall ops ops', Q ops -> find_registry nodes ops = Ok ops' -> Q ops'.
Proof.
  induction nodes as [|node nodes IH]; intros ops ops' Hops H; simpl in H.
  - now injection H as <-.
  - destruct node as [| | | | | | targets value | |]; try (now apply (IH ops ops')).
    destruct (assign_targets targets value ops) as [ops1|e] eqn:H1; simpl in H; [|discriminate].
    apply (IH ops1 ops'); auto. exact (assign_targets_inv targets value Hops H1).
Qed.

End RegistryInvariant.

(** What [_parse_cli] returns, when it finds and parses the entry point. *)
Lemma parse_cli_cases (w : World) (self self1 : RepoScanner) (ops : opmap OperationInfo) :
  _parse_cli w self = (self1, Ok ops) ->
  ops = []
  \/ exists tree registry,
       find_registry (ast.walk tree) [] = Ok registry
       /\ ops = merge_cli_args (_parse_click_options tree) registry.
Proof.
  unfold _parse_cli. destruct (locate_cli w self) as [cli_path self'].
  destruct (negb (path_exists w cli_path)); [intros [= _ <-]; now left|].
  destruct (read_text w cli_path) as [source|]; [|discriminate].
  destruct (ast_parse w source) as [tree|]; [|discriminate].
  destruct (find_registry (ast.walk tree) []) as [registry|e] eqn:Hreg; simpl; [|discriminate].
  intros [= _ <-]. right. eauto.
Qed.

(** ** Operation names are the keys of a dictionary *)

Lemma op_set_distinct {V : Type} (k : constant) (v : V) (m : opmap V) :
  distinct_keys m -> distinct_keys (op_set k v m).
Proof.
  induction m as [|[k0 v0] m IH]; simpl; intros Hm.
  - split; auto.
  - destruct Hm as [H0 Hm]. destruct (const_eqb k0 k) eqn:Hk; simpl.
    + split; auto.
    + split; [|now apply IH].
      rewrite op_mem_set_mono, H0. simpl.
      now rewrite const_eqb_sym.
Qed.

Lemma op_mem_map {V W : Type} (f : V -> W) (k : constant) (m : opmap V) :
  op_mem k (map (fun kv => (fst kv, f (snd kv))) m) = op_mem k m.
Proof.
  induction m as [|[k0 v0] m IH]; simpl; auto.
  now rewrite !op_mem_cons, IH.
Qed.

Lemma map_distinct {V W : Type} (f : V -> W) (m : opmap V) :
  distinct_keys m -> distinct_keys (map (fun kv => (fst kv, f (snd kv))) m).
Proof.
  induction m as [|[k0 v0] m IH]; simpl; auto.
  intros [H0 Hm]. split; [|now apply IH].
  now rewrite (op_mem_map f k0 m).
Qed.

Lemma parse_cli_distinct (w : World) (self self1 : RepoScanner) (ops : opmap OperationInfo) :
  _parse_cli w self = (self1, Ok ops) -> distinct_keys ops.
Proof.
  intros H. destruct (parse_cli_cases w self H) as [-> | (tree & registry & Hreg & ->)].
  - exact I.
  - unfold merge_cli_args. apply map_distinct.
    refine (@find_registry_inv (fun _ => True) (fun _ => True) distinct_keys
              _ _ _ _ (ast.walk tree) [] registry I Hreg); auto.
    + exact I.
    + intros. now apply op_set_distinct.
Qed.

Lemma scan_operations_distinct (w : World) (ops : opmap OperationInfo) :
  forall self,
    distinct_keys (operations self) ->
    distinct_keys (operations (fst (scan_operations w self ops))).
Proof.
  induction ops as [|[name op_info] ops IH]; intros self Hd; simpl; auto.
  destruct (_parse_operation_script w self op_info); simpl; auto.
  apply IH. simpl. now apply op_set_distinct.
Qed.

(** X2.  The operation names of a mapping stay pairwise different (for
    Python's [==]): the mapping that [_parse_cli] returns has no two equal
    keys, and a scan keeps the keys of the scanner's operations pairwise
    different, whether it returns or raises. *)
Theorem scan_keeps_names_distinct :
  forall (w : World) (self : RepoScanner),
    (forall self1 ops, _parse_cli w self = (self1, Ok ops) -> distinct_keys ops)
    /\ (distinct_keys (operations self) ->
        distinct_keys (operations (fst (scan w self)))).
Proof.
  intros w self. split.
  - intros self1 ops H. exact (parse_cli_distinct w self H).
  - intros Hd. unfold scan.
    pose proof (locate_cli_operations w self) as Hloc.
    assert (Hcli : operations (fst (_parse_cli w self)) = operations self).
    { unfold _parse_cli. destruct (locate_cli w self) as [cli_path self1]. simpl in Hloc.
      destruct (negb (path_exists w cli_path)); [exact Hloc|].
      destruct (read_text w cli_path); [|exact Hloc].
      destruct (ast_parse w s); exact Hloc. }
    destruct (_parse_cli w self) as [self1 [cli_operations|e]]; simpl in *.
    + pose proof (scan_operations_distinct w cli_operations self1) as Hmono.
      rewrite Hcli in Hmono. specialize (Hmono Hd).
      destruct (scan_operations w self1 cli_operations) as [self2 [u|e]]; exact Hmono.
    + now rewrite Hcli.
Qed.

Lemma scan_keeps_names_distinct_witness :
  distinct_keys (operations (fst (scan Demo.repo (init "/repo")))).
Proof.
  apply (proj2 (scan_keeps_names_distinct Demo.repo (init "/repo"))).
  simpl. exact I.
Defined.

(** ** Names of arguments *)

Lemma replace_removes_hyphens (s : string) : has_hyphen (replace_char "-" "_" s) = false.
Proof.
  induction s as [|c s IH]; simpl; auto.
  rewrite IH. destruct (Ascii.eqb c "-") eqn:Hc; simpl; auto.
  now rewrite Hc.
Qed.

Lemma in_op_set {V : Type} (k k0 : constant) (v v0 : V) (m : opmap V) :
  In (k, v) (op_set k0 v0 m) -> v = v0 \/ In (k, v) m.
Proof.
  induction m as [|[k1 v1] m IH]; simpl.
  - intros [[= <- <-]|[]]. now left.
  - destruct (const_eqb k1 k0); simpl.
    + intros [[= <- <-]|H]; auto.
    + intros [[= <- <-]|H]; auto. destruct (IH H); auto.
Qed.

Lemma apply_keyword_name (kw : option string * ast.node) (arg : OperationArg) :
  name (apply_keyword kw arg) = name arg /\ required (apply_keyword kw arg) = required arg.
Proof.
  unfold apply_keyword. destruct (fst kw) as [k|]; auto.
  destruct (String.eqb k "help"); [destruct (snd kw); auto|].
  destruct (String.eqb k "default"); [destruct (snd kw); auto|].
  destruct (String.eqb k "type"); [destruct (snd kw); auto|].
  destruct (String.eqb k "is_flag"); auto.
Qed.

Lemma apply_keywords_name (keywords : list (option string * ast.node)) :
  forall arg,
    name (fold_left (fun arg kw => apply_keyword kw arg) keywords arg) = name arg
    /\ required (fold_left (fun arg kw => apply_keyword kw arg) keywords arg) = required arg.
Proof.
  induction keywords as [|kw keywords IH]; intros arg; simpl; auto.
  destruct (IH (apply_keyword kw arg)) as [Hn Hr].
  destruct (apply_keyword_name kw arg) as [Hn' Hr'].
  split; congruence.
Qed.

Lemma option_name_no_hyphen (call_args : list ast.node) (n : string) :
  option_name call_args = Some n -> has_hyphen n = false.
Proof.
  induction call_args as [|a call_args IH]; simpl; [discriminate|].
  destruct a as [[| b | z | s] | | | | | | | |]; auto.
  destruct (startswith "--" s); auto.
  intros [= <-]. apply replace_removes_hyphens.
Qed.

(** X3.  Names are normalized everywhere: every argument of every operation
    that [_parse_cli] returns has a name without hyphen, and every option
    record of [_parse_click_options] has a name that is not empty and has no
    hyphen, and is not required. *)
Theorem names_are_normalized :
  (forall (w : World) (self self1 : RepoScanner) (ops : opmap OperationInfo),
      _parse_cli w self = (self1, Ok ops) ->
      forall k op_info arg,
        In (k, op_info) ops -> In arg (args op_info) -> has_hyphen (name arg) = false)
  /\ (forall (tree : ast.tree) (cli_arg : OperationArg),
        In cli_arg (_parse_click_options tree) ->
        has_hyphen (name cli_arg) = false /\ name cli_arg <> "" /\ required cli_arg = false).
Proof.
  split.
  - intros w self self1 ops H k op_info arg Hin Harg.
    destruct (parse_cli_cases w self H) as [-> | (tree & registry & Hreg & ->)];
      [contradiction|].
    unfold merge_cli_args in Hin. apply in_map_iff in Hin.
    destruct Hin as [[k0 v0] [[= <- <-] Hin]]. simpl in Harg.
    apply in_map_iff in Harg. destruct Harg as [a [<- Ha]].
    rewrite (proj1 (merge_arg_name (_parse_click_options tree) a)).
    assert (Hall : forall k v, In (k, v) registry ->
                     Forall (fun a => has_hyphen (name a) = false) (args v)).
    { refine (@find_registry_inv (fun a => has_hyphen (name a) = false)
                (fun v => Forall (fun a => has_hyphen (name a) = false) (args v))
                (fun m => forall k v, In (k, v) m ->
                            Forall (fun a => has_hyphen (name a) = false) (args v))
                _ _ _ _ (ast.walk tree) [] registry _ Hreg).
      - intros s. simpl. apply replace_removes_hyphens.
      - intros n d s a0 Ha0. exact Ha0.
      - intros k1 v1 [].
      - intros k1 v1 m Hv Hm k2 v2 Hin2.
        destruct (in_op_set _ _ _ _ _ Hin2) as [-> | Hin3]; eauto.
      - intros k1 v1 []. }
    specialize (Hall k0 v0 Hin). rewrite Forall_forall in Hall. now apply Hall.
  - intros tree cli_arg Hin. unfold _parse_click_options in Hin.
    apply in_flat_map in Hin. destruct Hin as [node [_ Hin]].
    destruct node as [| | | | | | | fname params doc decorators |]; try contradiction.
    destruct (String.eqb fname "run"); [|contradiction].
    apply in_flat_map in Hin. destruct Hin as [decorator [_ Hin]].
    unfold click_option in Hin.
    destruct decorator as [| | | func call_args keywords | | | | |]; try contradiction.
    destruct func as [| | value attr | | | | | |]; try contradiction.
    destruct (String.eqb attr "option"); [|contradiction].
    destruct (option_name call_args) as [opt_name|] eqn:Hname; [|contradiction].
    destruct (String.eqb opt_name "") eqn:Hempty; [contradiction|].
    destruct Hin as [<-|[]].
    destruct (apply_keywords_name keywords (new_arg opt_name false)) as [Hn Hr].
    rewrite Hn, Hr. simpl.
    split; [exact (option_name_no_hyphen call_args Hname)|].
    split; [now apply String.eqb_neq | reflexivity].
Qed.

Lemma names_are_normalized_witness :
  has_hyphen (name {| name := "max_count"; required := true; arg_type := "int";
                      default := Some "3"; description := CStr "" |}) = false.
Proof.
  refine (proj1 names_are_normalized Demo.repo (init "/repo") (init "/repo")
            [(CStr "backup", Demo.backup_operation);
             (CStr "deploy", Demo.merged_deploy_operation)]
            _ (CStr "deploy") Demo.merged_deploy_operation _ _ _).
  - vm_compute. reflexivity.
  - simpl. auto.
  - vm_compute. auto.
Defined.

(** ** What a scan stores *)

Lemma op_get_set_same {V : Type} (k : constant) (v : V) (m : opmap V) :
  op_get k (op_set k v m) = Some v.
Proof.
  induction m as [|[k0 v0] m IH]; simpl.
  - now rewrite const_eqb_refl.
  - destruct (const_eqb k0 k) eqn:Hk; simpl; now rewrite Hk.
Qed.

Lemma op_get_set_other {V : Type} (k k' : constant) (v : V) (m : opmap V) :
  const_eqb k' k = false -> op_get k (op_set k' v m) = op_get k m.
Proof.
  intros Hne. induction m as [|[k0 v0] m IH]; simpl.
  - now rewrite Hne.
  - destruct (const_eqb k0 k') eqn:H0; simpl.
    + destruct (const_eqb k0 k) eqn:H1; auto.
      rewrite const_eqb_sym in H0.
      rewrite (const_eqb_trans _ _ _ H0 H1) in Hne. discriminate.
    + now rewrite IH.
Qed.

(** Assigning the value that is already there changes nothing. *)
Lemma op_set_same_value {V : Type} (k : constant) (v : V) (m : opmap V) :
  op_get k m = Some v -> op_set k v m = m.
Proof.
  induction m as [|[k0 v0] m IH]; simpl; [discriminate|].
  destruct (const_eqb k0 k).
  - now intros [= ->].
  - intros H. now rewrite IH.
Qed.

Lemma op_set_fresh {V : Type} (k : constant) (v : V) (m : opmap V) :
  op_mem k m = false -> op_set k v m = m ++ [(k, v)].
Proof.
  induction m as [|[k0 v0] m IH]; simpl; auto.
  rewrite op_mem_cons. destruct (const_eqb k0 k); simpl; [discriminate|].
  intros H. now rewrite IH.
Qed.

Lemma op_mem_app {V : Type} (k : constant) (m1 m2 : opmap V) :
  op_mem k (m1 ++ m2) = op_mem k m1 || op_mem k m2.
Proof.
  induction m1 as [|[k0 v0] m1 IH]; simpl; auto.
  rewrite !op_mem_cons, IH. now rewrite orb_assoc.
Qed.

Lemma op_mem_false_keys {V : Type} (k : constant) (m : opmap V) :
  op_mem k m = false -> forall kv, In kv m -> const_eqb (fst kv) k = false.
Proof.
  induction m as [|[k0 v0] m IH]; simpl; [contradiction|].
  rewrite op_mem_cons. intros H kv [<-|Hin]; simpl.
  - now destruct (const_eqb k0 k).
  - apply IH; auto. now destruct (const_eqb k0 k).
Qed.

Lemma stored_fresh (l : opmap OperationInfo) :
  forall m,
    distinct_keys l ->
    (forall kv, In kv l -> op_mem (fst kv) m = false) ->
    stored l m = m ++ l.
Proof.
  unfold stored. induction l as [|[k v] l IH]; intros m Hd Hm; simpl.
  - now rewrite app_nil_r.
  - destruct Hd as [Hk Hd]. rewrite (op_set_fresh k v m (Hm (k, v) (or_introl eq_refl))).
    rewrite IH; auto.
    + now rewrite <- app_assoc.
    + intros kv Hin.
      rewrite op_mem_app, (Hm kv (or_intror Hin)), op_mem_cons, const_eqb_sym,
        (op_mem_false_keys k l Hk kv Hin).
      reflexivity.
Qed.

Lemma stored_other (k : constant) (l : opmap OperationInfo) :
  forall m,
    (forall kv, In kv l -> const_eqb (fst kv) k = false) ->
    op_get k (stored l m) = op_get k m.
Proof.
  unfold stored. induction l as [|[k0 v0] l IH]; intros m H; simpl; auto.
  rewrite IH by (intros kv Hin; apply H; now right).
  apply op_get_set_other. exact (H (k0, v0) (or_introl eq_refl)).
Qed.

Lemma stored_lookup (l : opmap OperationInfo) :
  forall m k v,
    distinct_keys l -> In (k, v) l -> op_get k (stored l m) = Some v.
Proof.
  induction l as [|[k0 v0] l IH]; intros m k v Hd Hin; [contradiction|].
  destruct Hd as [Hk Hd]. destruct Hin as [[= <- <-]|Hin].
  - change (stored ((k0, v0) :: l) m) with (stored l (op_set k0 v0 m)).
    rewrite (stored_other k0 l _ (op_mem_false_keys k0 l Hk)).
    apply op_get_set_same.
  - change (stored ((k0, v0) :: l) m) with (stored l (op_set k0 v0 m)). now apply IH.
Qed.

Lemma scan_operations_stored (w : World) (ops : opmap OperationInfo) :
  forall self self',
    scan_operations w self ops = (self', Ok tt) ->
    exists parsed,
      scanned_as w self ops parsed
      /\ self' = {| repo_path := repo_path self; operations := stored parsed (operations self) |}.
Proof.
  induction ops as [|[name op_info] ops IH]; intros self self' H; simpl in H.
  - injection H as <-. exists []. split; [constructor|]. now destruct self.
  - destruct (_parse_operation_script w self op_info) as [op_info'|e] eqn:Hp; [|discriminate].
    destruct (IH _ _ H) as [parsed [Hall ->]].
    exists ((name, op_info') :: parsed). split.
    + constructor; [split; auto|].
      eapply Forall2_impl; [|exact Hall].
      intros kv kv' [Hk Hs]. split; auto.
    + reflexivity.
Qed.

Lemma scanned_as_distinct (w : World) (self : RepoScanner) (ops parsed : opmap OperationInfo) :
  scanned_as w self ops parsed -> distinct_keys ops -> distinct_keys parsed.
Proof.
  intros H. induction H as [|[k v] [k' v'] ops parsed [Hk _] Hall IH]; simpl; auto.
  simpl in Hk. subst k'. intros [Hmem Hd]. split; [|now apply IH].
  clear IH Hd. induction Hall as [|[k1 v1] [k1' v1'] ops parsed [Hk1 _] _ IH]; auto.
  simpl in Hk1. subst k1'. rewrite op_mem_cons in *.
  destruct (const_eqb k1 k); [discriminate|]. simpl in *. now apply IH.
Qed.

Lemma scan_unfold (w : World) (self self' : RepoScanner) (m : opmap OperationInfo) :
  scan w self = (self', Ok m) ->
  exists self1 ops,
    _parse_cli w self = (self1, Ok ops)
    /\ scan_operations w self1 ops = (self', Ok tt)
    /\ m = operations self'.
Proof.
  unfold scan.
  destruct (_parse_cli w self) as [self1 [ops|e]]; [|discriminate].
  destruct (scan_operations w self1 ops) as [self2 [[]|e]] eqn:Hs; [|discriminate].
  intros [= <- <-]. eauto.
Qed.

Lemma parse_cli_operations (w : World) (self : RepoScanner) :
  operations (fst (_parse_cli w self)) = operations self.
Proof.
  pose proof (locate_cli_operations w self) as Hloc.
  unfold _parse_cli. destruct (locate_cli w self) as [cli_path self1]. simpl in Hloc.
  destruct (negb (path_exists w cli_path)); [exact Hloc|].
  destruct (read_text w cli_path); [|exact Hloc].
  destruct (ast_parse w s); exact Hloc.
Qed.

Lemma fresh_scan_stored (w : World) (root : string) (self' : RepoScanner)
    (m : opmap OperationInfo) :
  scan w (init root) = (self', Ok m) ->
  exists self1 ops,
    _parse_cli w (init root) = (self1, Ok ops)
    /\ op_keys m = op_keys ops
    /\ scanned_as w self1 ops m.
Proof.
  intros H.
  destruct (scan_unfold w _ H) as (self1 & ops & Hcli & Hloop & ->).
  exists self1, ops. split; [exact Hcli|].
  destruct (scan_operations_stored w ops self1 Hloop) as [parsed [Hall ->]]. simpl.
  pose proof (parse_cli_operations w (init root)) as Hops.
  rewrite Hcli in Hops. simpl in Hops. rewrite Hops.
  rewrite stored_fresh.
  - simpl. split; [|exact Hall].
    clear -Hall. induction Hall as [|[k v] [k' v'] ops parsed [Hk _] _ IH]; simpl; auto.
    simpl in Hk. now rewrite Hk, IH.
  - exact (scanned_as_distinct Hall (parse_cli_distinct w _ Hcli)).
  - reflexivity.
Qed.

(** X4.  What the scan of a new scanner returns: the operations that
    [_parse_cli] found, in registry order and under the same names, each
    with the result of scanning its script. *)
Theorem fresh_scan_returns_registry :
  forall (w : World) (root : string) (self' : RepoScanner) (m : opmap OperationInfo),
    scan w (init root) = (self', Ok m) ->
    exists self1 ops,
      _parse_cli w (init root) = (self1, Ok ops)
      /\ op_keys m = op_keys ops
      /\ scanned_as w self1 ops m.
Proof. intros w root self' m H. exact (fresh_scan_stored w root H). Qed.

Lemma fresh_scan_returns_registry_witness :
  exists self1 ops,
    _parse_cli Demo.repo (init "/repo") = (self1, Ok ops)
    /\ op_keys (operations (fst (scan Demo.repo (init "/repo")))) = op_keys ops
    /\ scanned_as Demo.repo self1 ops (operations (fst (scan Demo.repo (init "/repo")))).
Proof.
  apply (fresh_scan_returns_registry Demo.repo "/repo"
           (self' := fst (scan Demo.repo (init "/repo")))).
  vm_compute. reflexivity.
Defined.

(** [_parse_cli] looks at the repository path of the scanner only, and
    hands the stored operations on. *)
Lemma parse_cli_repo_path (w : World) (path : string) (m m' : opmap OperationInfo) :
  _parse_cli w {| repo_path := path; operations := m' |}
  = ({| repo_path := repo_path (fst (_parse_cli w {| repo_path := path; operations := m |}));
        operations := m' |},
     snd (_parse_cli w {| repo_path := path; operations := m |})).
Proof.
  unfold _parse_cli, locate_cli. cbn [repo_path operations].
  set (cli_path :=
         if path_exists w (path_join (path_join path "service_console") "cli.py")
         then path_join (path_join path "service_console") "cli.py"
         else first_existing w path ["cli.py"; "service_console/cli.py"; "src/cli.py"]
                (path_join (path_join path "service_console") "cli.py")).
  destruct (path_exists w cli_path) eqn:Hex.
  - cbn [negb fst snd]. rewrite Hex. cbn [negb fst snd].
    destruct (read_text w cli_path) as [source|]; [|reflexivity].
    destruct (ast_parse w source); reflexivity.
  - destruct (walk_matches w path) as [|found more]; cbn [negb fst snd].
    + rewrite Hex. reflexivity.
    + destruct (negb (path_exists w (shallowest found more))); [reflexivity|].
      destruct (read_text w (shallowest found more)) as [source|]; [|reflexivity].
      destruct (ast_parse w source); reflexivity.
Qed.

Lemma scan_operations_fixed (w : World) (ops parsed : opmap OperationInfo)
    (self : RepoScanner) :
  scanned_as w self ops parsed ->
  (forall kv, In kv parsed -> op_get (fst kv) (operations self) = Some (snd kv)) ->
  scan_operations w self ops = (self, Ok tt).
Proof.
  intros Hall. induction Hall as [|[k v] [k' v'] ops parsed [Hk Hp] Hall IH]; intros Hget.
  - reflexivity.
  - simpl in *. subst k'. rewrite Hp.
    rewrite (@op_set_same_value _ k v' (operations self) (Hget (k, v') (or_introl eq_refl))).
    destruct self as [path m]. simpl in *. apply IH.
    intros kv Hin. apply Hget. now right.
Qed.

(** X5.  Scanning again is stable: when a scan returns and has not moved
    the repository path of the scanner, a second scan of the same
    repository returns the same mapping and leaves the scanner as it is. *)
Theorem rescan_is_stable :
  forall (w : World) (self self1 : RepoScanner) (m1 : opmap OperationInfo),
    scan w self = (self1, Ok m1) ->
    repo_path self1 = repo_path self ->
    scan w self1 = (self1, Ok m1).
Proof.
  intros w self self1 m1 H Hpath.
  destruct (scan_unfold w _ H) as (sa & ops & Hcli & Hloop & ->).
  destruct (scan_operations_stored w ops sa Hloop) as [parsed [Hall Hself1]].
  pose proof (parse_cli_operations w self) as Hops. rewrite Hcli in Hops. simpl in Hops.
  assert (Hsa : repo_path sa = repo_path self).
  { rewrite <- Hpath, Hself1. reflexivity. }
  assert (Hcli1 : _parse_cli w self1 = (self1, Ok ops)).
  { rewrite Hself1. rewrite Hsa.
    rewrite (parse_cli_repo_path w (repo_path self) (operations self)).
    destruct self as [path m]. simpl in *. rewrite Hcli. simpl. now rewrite Hsa. }
  unfold scan. rewrite Hcli1.
  assert (Hfix : scan_operations w self1 ops = (self1, Ok tt)).
  { apply scan_operations_fixed with (parsed := parsed).
    - eapply Forall2_impl; [|exact Hall].
      intros kv kv' [Hk Hp]. split; auto.
      rewrite <- Hp. apply parse_script_repo_path. rewrite Hself1. reflexivity.
    - intros [k v] Hin. rewrite Hself1. simpl.
      apply stored_lookup; auto.
      exact (scanned_as_distinct Hall (parse_cli_distinct w _ Hcli)). }
  rewrite Hfix. reflexivity.
Qed.

Lemma rescan_is_stable_witness :
  scan Demo.repo (fst (scan Demo.repo (init "/repo")))
  = (fst (scan Demo.repo (init "/repo")), Ok (operations (fst (scan Demo.repo (init "/repo"))))).
Proof.
  apply (rescan_is_stable Demo.repo (init "/repo")).
  - vm_compute. reflexivity.
  - vm_compute. reflexivity.
Defined.

(** ** Scripts that are not found *)

Lemma unresolved_script_unchanged (w : World) (self : RepoScanner) (op_info : OperationInfo) :
  resolve_script w (repo_path self) (script_path op_info) = Ok None ->
  _parse_operation_script w self op_info = Ok op_info.
Proof. intros H. unfold _parse_operation_script. now rewrite H. Qed.

Lemma scanned_as_in (w : World) (self : RepoScanner) (ops parsed : opmap OperationInfo)
    (k : constant) (op_info : OperationInfo) :
  scanned_as w self ops parsed ->
  In (k, op_info) ops ->
  exists op_info',
    In (k, op_info') parsed /\ _parse_operation_script w self op_info = Ok op_info'.
Proof.
  intros H. induction H as [|[k0 v0] [k0' v0'] ops parsed [Hk Hp] _ IH]; [contradiction|].
  simpl in Hk, Hp. subst k0'. intros [[= -> ->]|Hin].
  - exists v0'. split; [now left | exact Hp].
  - destruct (IH Hin) as [op_info' [Hin' Hp']]. exists op_info'. split; [now right | exact Hp'].
Qed.

(** X6.  An operation whose script file is found neither under the
    repository nor under its [service_console] directory is not an error:
    the scan of a new scanner returns it as the registry declares it, with
    no functions, no environment variables, no error conditions and an
    empty source text. *)
Theorem missing_script_is_skipped :
  forall (w : World) (root : string) (self' self1 : RepoScanner)
         (m ops : opmap OperationInfo) (k : constant) (op_info : OperationInfo),
    scan w (init root) = (self', Ok m) ->
    _parse_cli w (init root) = (self1, Ok ops) ->
    In (k, op_info) ops ->
    resolve_script w (repo_path self1) (script_path op_info) = Ok None ->
    In (k, op_info) m
    /\ functions op_info = [] /\ env_vars op_info = []
    /\ error_conditions op_info = [] /\ source_code op_info = "".
Proof.
  intros w root self' self1 m ops k op_info Hscan Hcli Hin Hres.
  destruct (fresh_scan_stored w root Hscan) as (self1' & ops' & Hcli' & _ & Hall).
  rewrite Hcli in Hcli'. injection Hcli' as <- <-.
  destruct (@scanned_as_in w self1 ops m k op_info Hall Hin) as [op_info' [Hin' Hp]].
  rewrite (unresolved_script_unchanged w self1 op_info Hres) in Hp. injection Hp as <-.
  split; [exact Hin'|].
  destruct (parse_cli_entries w (init root) Hcli k op_info Hin) as (Hf & He & Hc & Hs & _).
  auto.
Qed.

Lemma missing_script_is_skipped_witness :
  In (CStr "deploy", Demo.merged_deploy_operation)
     (operations (fst (scan Demo.repo_without_deploy_script (init "/repo"))))
  /\ functions Demo.merged_deploy_operation = []
  /\ env_vars Demo.merged_deploy_operation = []
  /\ error_conditions Demo.merged_deploy_operation = []
  /\ source_code Demo.merged_deploy_operation = "".
Proof.
  apply (@missing_script_is_skipped Demo.repo_without_deploy_script "/repo"
           (fst (scan Demo.repo_without_deploy_script (init "/repo"))) (init "/repo")
           (operations (fst (scan Demo.repo_without_deploy_script (init "/repo"))))
           [(CStr "backup", Demo.backup_operation);
            (CStr "deploy", Demo.merged_deploy_operation)]).
  - vm_compute. reflexivity.
  - vm_compute. reflexivity.
  - simpl. auto.
  - vm_compute. reflexivity.
Defined.

(** ** An entry point without registry *)

Lemma assign_targets_nil (targets : list ast.node) (value : ast.node) :
  registry_literal_assignment (ast.Assign targets value) = false ->
  assign_targets targets value [] = Ok [].
Proof.
  intros H. induction targets as [|target targets IH]; simpl; auto.
  destruct (is_registry_name target) eqn:Ht.
  - destruct value; simpl in *; try (apply IH; reflexivity).
    rewrite Ht in H. discriminate.
  - apply IH. destruct value; simpl in *; auto. now rewrite Ht in H.
Qed.

Lemma find_registry_nil (nodes : list ast.node) :
  (forall node, In node nodes -> registry_literal_assignment node = false) ->
  find_registry nodes [] = Ok [].
Proof.
  induction nodes as [|node nodes IH]; intros H; simpl; auto.
  assert (Hrest : find_registry nodes [] = Ok [])
    by (apply IH; intros n Hn; apply H; now right).
  destruct node as [| | | | | | targets value | |]; auto.
  rewrite (assign_targets_nil targets value (H _ (or_introl eq_refl))). exact Hrest.
Qed.

(** X7.  An entry point that parses but never assigns a dictionary literal
    to [AVAILABLE_OPERATIONS] (no such assignment, or a computed value) is
    not an error: the scan of a new scanner returns the empty mapping. *)
Theorem scan_without_registry_is_empty :
  forall (w : World) (root source : string) (tree : ast.tree),
    path_exists w (fst (locate_cli w (init root))) = true ->
    read_text w (fst (locate_cli w (init root))) = Some source ->
    ast_parse w source = Some tree ->
    (forall node, In node (ast.walk tree) -> registry_literal_assignment node = false) ->
    snd (scan w (init root)) = Ok [].
Proof.
  intros w root source tree Hex Hread Hparse Hnone.
  pose proof (locate_cli_operations w (init root)) as Hops.
  unfold scan, _parse_cli.
  destruct (locate_cli w (init root)) as [cli_path self1]. simpl in *.
  rewrite Hex, Hread, Hparse. simpl.
  rewrite (find_registry_nil (ast.walk tree) Hnone). simpl. now rewrite Hops.
Qed.

Lemma scan_without_registry_is_empty_witness :
  snd (scan Demo.repo_without_registry (init "/repo")) = Ok [].
Proof.
  apply (scan_without_registry_is_empty Demo.repo_without_registry "/repo"
           (source := Demo.plain_source) (tree := Demo.script_tree)).
  - reflexivity.
  - reflexivity.
  - reflexivity.
  - intros node Hin. simpl in Hin.
    repeat (destruct Hin as [<-|Hin]; [reflexivity|]). contradiction.
Defined.

(** ** The directory-wide search *)

Lemma shallowest_least (more : list string) :
  forall best,
    In (shallowest best more) (best :: more)
    /\ forall p, In p (best :: more) -> depth (shallowest best more) <= depth p.
Proof.
  induction more as [|q more IH]; intros best; simpl.
  - split; [now left|]. intros p [<-|[]]. lia.
  - destruct (IH (if Nat.ltb (depth q) (depth best) then q else best)) as [Hin Hle].
    split.
    + destruct Hin as [Heq|Hin]; [|now right; right].
      rewrite <- Heq. destruct (Nat.ltb (depth q) (depth best)); auto.
    + intros p Hp.
      assert (Hbest : depth (if Nat.ltb (depth q) (depth best) then q else best) <= depth best
                      /\ depth (if Nat.ltb (depth q) (depth best) then q else best) <= depth q).
      { destruct (Nat.ltb (depth q) (depth best)) eqn:Hlt.
        - apply Nat.ltb_lt in Hlt. lia.
        - apply Nat.ltb_ge in Hlt. lia. }
      pose proof (Hle _ (or_introl eq_refl)) as H0.
      destruct Hp as [<-|[<-|Hp]]; try lia.
      apply Hle. now right.
Qed.

Lemma walk_matches_found (w : World) (root found : string) :
  In found (walk_matches w root) ->
  path_exists w found = true
  /\ exists dir dirs files,
       In (dir, dirs, files) (os_walk w root)
       /\ In "service_console" dirs
       /\ found = path_join (path_join dir "service_console") "cli.py".
Proof.
  unfold walk_matches. intros Hin. apply in_flat_map in Hin.
  destruct Hin as [[[dir dirs] files] [Hentry Hin]].
  destruct (existsb (String.eqb "service_console") dirs) eqn:Hex; [|contradiction].
  destruct (path_exists w (path_join (path_join dir "service_console") "cli.py")) eqn:Hp;
    [|contradiction].
  destruct Hin as [<-|[]]. split; [exact Hp|].
  exists dir, dirs, files. repeat split; auto.
  apply existsb_exists in Hex. destruct Hex as [d [Hd Heq]].
  apply String.eqb_eq in Heq. now subst d.
Qed.

Lemma locate_cli_fallback (w : World) (self : RepoScanner) (found : string)
    (more : list string) :
  path_exists w (path_join (path_join (repo_path self) "service_console") "cli.py") = false ->
  (forall candidate, In candidate ["cli.py"; "service_console/cli.py"; "src/cli.py"] ->
     path_exists w (path_join (repo_path self) candidate) = false) ->
  walk_matches w (repo_path self) = found :: more ->
  locate_cli w self
  = (shallowest found more,
     {| repo_path := dirname (dirname (shallowest found more));
        operations := operations self |}).
Proof.
  intros Hcli Hcand Hwalk. unfold locate_cli.
  rewrite Hcli, (first_existing_missing w (repo_path self) _ _ Hcand), Hcli, Hwalk.
  reflexivity.
Qed.

(** X8.  When [cli.py] is at none of the candidate paths and the
    directory-wide search finds [service_console/cli.py] files, the scanner
    settles on one of them that exists and has the fewest path components,
    and moves its repository path two directories above that file; its
    operations are untouched. *)
Theorem fallback_picks_shallowest :
  forall (w : World) (self : RepoScanner) (found : string) (more : list string),
    path_exists w (path_join (path_join (repo_path self) "service_console") "cli.py") = false ->
    (forall candidate, In candidate ["cli.py"; "service_console/cli.py"; "src/cli.py"] ->
       path_exists w (path_join (repo_path self) candidate) = false) ->
    walk_matches w (repo_path self) = found :: more ->
    In (fst (locate_cli w self)) (found :: more)
    /\ path_exists w (fst (locate_cli w self)) = true
    /\ (forall p, In p (found :: more) -> depth (fst (locate_cli w self)) <= depth p)
    /\ repo_path (snd (locate_cli w self)) = dirname (dirname (fst (locate_cli w self)))
    /\ operations (snd (locate_cli w self)) = operations self.
Proof.
  intros w self found more Hcli Hcand Hwalk.
  rewrite (locate_cli_fallback w self Hcli Hcand Hwalk). simpl fst. simpl snd.
  destruct (shallowest_least more found) as [Hin Hle].
  repeat split; auto.
  apply (walk_matches_found w (repo_path self)). now rewrite Hwalk.
Qed.

Lemma fallback_picks_shallowest_witness :
  In (fst (locate_cli Demo.nested_repo (init "/repo")))
     ["/repo/vendor/old/service_console/cli.py"; "/repo/pkg/service_console/cli.py"]
  /\ path_exists Demo.nested_repo (fst (locate_cli Demo.nested_repo (init "/repo"))) = true
  /\ (forall p,
        In p ["/repo/vendor/old/service_console/cli.py"; "/repo/pkg/service_console/cli.py"] ->
        depth (fst (locate_cli Demo.nested_repo (init "/repo"))) <= depth p)
  /\ repo_path (snd (locate_cli Demo.nested_repo (init "/repo")))
     = dirname (dirname (fst (locate_cli Demo.nested_repo (init "/repo"))))
  /\ operations (snd (locate_cli Demo.nested_repo (init "/repo"))) = operations (init "/repo").
Proof.
  apply (fallback_picks_shallowest Demo.nested_repo (init "/repo")).
  - reflexivity.
  - intros candidate Hc. simpl in Hc.
    repeat (destruct Hc as [<-|Hc]; [reflexivity|]). contradiction.
  - reflexivity.
Defined.

(** The nested repository is scanned from [/repo/pkg]. *)
Example nested_repo_is_reanchored :
  fst (locate_cli Demo.nested_repo (init "/repo")) = "/repo/pkg/service_console/cli.py"
  /\ repo_path (fst (scan Demo.nested_repo (init "/repo"))) = "/repo/pkg"
  /\ op_keys (operations (fst (scan Demo.nested_repo (init "/repo")))) = [CStr "backup"].
Proof. repeat split; vm_compute; reflexivity. Qed.

(** ** Paths *)

Local Open Scope string_scope.

Lemma append_assoc (x y z : string) : (x ++ y) ++ z = x ++ (y ++ z).
Proof. induction x as [|c x IH]; simpl; auto. now rewrite IH. Qed.

Lemma append_nil_r (x : string) : x ++ "" = x.
Proof. induction x as [|c x IH]; simpl; auto. now rewrite IH. Qed.

Lemma string_rev_onto_spec (x : string) :
  forall acc, string_rev_onto x acc = string_rev x ++ acc.
Proof.
  unfold string_rev. induction x as [|c x IH]; intros acc; simpl; auto.
  rewrite (IH (String c acc)), (IH (String c "")), append_assoc. reflexivity.
Qed.

Lemma string_rev_app (x y : string) : string_rev (x ++ y) = string_rev y ++ string_rev x.
Proof.
  induction x as [|c x IH]; simpl.
  - now rewrite append_nil_r.
  - unfold string_rev in *. simpl.
    rewrite (string_rev_onto_spec (x ++ y)), (string_rev_onto_spec x).
    unfold string_rev. rewrite IH, append_assoc. reflexivity.
Qed.

Lemma string_rev_involutive (x : string) : string_rev (string_rev x) = x.
Proof.
  induction x as [|c x IH]; auto.
  change (String c x) with (String c "" ++ x) at 1.
  rewrite string_rev_app, string_rev_app, IH. reflexivity.
Qed.

Lemma count_slashes_app (x y : string) :
  count_slashes (x ++ y) = count_slashes x + count_slashes y.
Proof. induction x as [|c x IH]; simpl; auto. rewrite IH. lia. Qed.

Lemma count_slashes_rev (x : string) : count_slashes (string_rev x) = count_slashes x.
Proof.
  induction x as [|c x IH]; auto.
  change (String c x) with (String c "" ++ x).
  rewrite string_rev_app, !count_slashes_app, IH. simpl. lia.
Qed.

Lemma drop_to_slash_app (x y : string) :
  count_slashes x = 0 -> drop_to_slash (x ++ String "/" y) = String "/" y.
Proof.
  induction x as [|c x IH]; simpl; auto.
  destruct (Ascii.eqb c "/"); simpl; [discriminate|]. exact IH.
Qed.

(** The last character of a path is the first one of its reverse. *)
Lemma string_rev_head (x : string) :
  x <> "" -> endswith_slash x = false ->
  exists c rest, string_rev x = String c rest /\ Ascii.eqb c "/" = false.
Proof.
  induction x as [|c x IH]; intros Hne Hend; [congruence|].
  destruct x as [|c' x'].
  - exists c, "". split; auto.
  - destruct IH as (c0 & rest & Hrev & Hc0); [discriminate | exact Hend|].
    change (String c (String c' x')) with (String c "" ++ String c' x').
    rewrite string_rev_app, Hrev. exists c0, (rest ++ String c ""). auto.
Qed.

(** [os.path.dirname(a + "/" + f)] is [a], for a file name [f] without
    slash and a directory [a] that does not end with one. *)
Lemma dirname_join (a f : string) :
  a <> "" -> endswith_slash a = false -> count_slashes f = 0 ->
  dirname (a ++ String "/" f) = a.
Proof.
  intros Hne Hend Hf. unfold dirname.
  rewrite string_rev_app.
  change (String "/" f) with (String "/" "" ++ f).
  rewrite string_rev_app, append_assoc. change (string_rev "/") with "/".
  change ("/" ++ string_rev a) with (String "/" (string_rev a)).
  rewrite drop_to_slash_app by now rewrite count_slashes_rev.
  destruct (string_rev_head Hne Hend) as (c & rest & Hrev & Hc).
  rewrite Hrev. simpl. rewrite Hc. simpl. rewrite <- Hrev.
  apply string_rev_involutive.
Qed.

Lemma endswith_slash_app (x : string) (c : ascii) (y : string) :
  endswith_slash (x ++ String c y) = endswith_slash (String c y).
Proof.
  induction x as [|c0 x IH]; auto.
  simpl append. destruct x; simpl in *; auto.
Qed.

(** X9.  The move of the repository path undoes the two joins of the
    search: for a directory that does not end with a slash, two directories
    above [dir/service_console/cli.py] is [dir], and the candidate path of
    the next scan from there is that same file. *)
Theorem reanchored_path_is_walked_directory :
  forall dir : string,
    endswith_slash dir = false ->
    dirname (dirname (path_join (path_join dir "service_console") "cli.py")) = dir
    /\ path_join (path_join
                    (dirname (dirname (path_join (path_join dir "service_console") "cli.py")))
                    "service_console") "cli.py"
       = path_join (path_join dir "service_console") "cli.py".
Proof.
  intros dir Hend.
  assert (H : dirname (dirname (path_join (path_join dir "service_console") "cli.py")) = dir).
  { destruct dir as [|c dir]; [reflexivity|].
    assert (Hjoin : path_join (String c dir) "service_console"
                    = String c dir ++ String "/" "service_console").
    { unfold path_join. simpl startswith. simpl String.eqb. rewrite Hend. reflexivity. }
    rewrite Hjoin.
    assert (Hjoin2 : path_join (String c dir ++ String "/" "service_console") "cli.py"
                     = (String c dir ++ String "/" "service_console") ++ String "/" "cli.py").
    { unfold path_join. simpl startswith.
      rewrite (endswith_slash_app (String c dir) "/" "service_console"). reflexivity. }
    rewrite Hjoin2.
    rewrite dirname_join; try reflexivity.
    - rewrite dirname_join; try reflexivity; [discriminate | exact Hend].
    - discriminate.
    - apply (endswith_slash_app (String c dir) "/" "service_console"). }
  split; [exact H | now rewrite H].
Qed.

Lemma reanchored_path_is_walked_directory_witness :
  dirname (dirname (path_join (path_join "/repo/pkg" "service_console") "cli.py")) = "/repo/pkg"
  /\ path_join (path_join
                  (dirname (dirname (path_join (path_join "/repo/pkg" "service_console")
                                               "cli.py")))
                  "service_console") "cli.py"
     = path_join (path_join "/repo/pkg" "service_console") "cli.py".
Proof.
  apply (reanchored_path_is_walked_directory "/repo/pkg"). reflexivity.
Defined.

End ScannerExtras.

(* ===================================================================== *)
(** * Properties of the differ and of the generation of test files *)
(* ===================================================================== *)

Module PipelineExtras.
Import Py Template Scanner Orchestrator Generation.
Import TemplateFacts ScannerFacts OrchestratorFacts.
Local Open Scope list_scope.

(** ** Snapshots *)

Lemma op_get_map {V W : Type} (f : V -> W) (k : constant) (m : opmap V) :
  op_get k (map (fun kv => (fst kv, f (snd kv))) m) = option_map f (op_get k m).
Proof.
  induction m as [|[k0 v0] m IH]; simpl; auto.
  destruct (const_eqb k0 k); auto.
Qed.

Lemma filter_none {A : Type} (p : A -> bool) (l : list A) :
  (forall x, In x l -> p x = false) -> filter p l = [].
Proof.
  induction l as [|x l IH]; simpl; intros H; auto.
  rewrite (H x (or_introl eq_refl)). apply IH. intros y Hy. apply H. now right.
Qed.

Lemma unchanged_source (m : opmap OperationInfo) (k : constant) :
  source_changed (previous_scan m) m k = false.
Proof.
  assert (H : op_get k (previous_scan m)
              = option_map (fun op => [("source_code", CStr (source_code op))]) (op_get k m))
    by exact (@op_get_map OperationInfo (dict constant)
                (fun op => [("source_code", CStr (source_code op))]) k m).
  unfold source_changed. rewrite H.
  destruct (op_get k m) as [op_info|]; simpl; auto.
  now rewrite String.eqb_refl.
Qed.

(** X10.  The snapshot that the watcher keeps of a scan reports no change
    against that same scan: with the previous mapping built from the
    scanned operations themselves, no name is added and none is modified. *)
Theorem snapshot_reports_no_change :
  forall m : opmap OperationInfo, new_operations (previous_scan m) m = [].
Proof.
  intros m. unfold new_operations.
  assert (Hkeys : op_keys (previous_scan m) = op_keys m).
  { unfold previous_scan, op_keys. rewrite map_map. reflexivity. }
  rewrite Hkeys. unfold set_difference, set_intersection.
  rewrite (filter_none (fun k => negb (name_in k (op_keys m)))).
  - simpl. apply filter_none. intros k _. apply unchanged_source.
  - intros k Hk. rewrite name_in_keys, (key_is_member k m Hk). reflexivity.
Qed.

(** ** No name is reported twice *)

Lemma name_in_equiv (x y : constant) (l : list constant) :
  const_eqb x y = true -> name_in x l = name_in y l.
Proof.
  intros Hxy. unfold name_in. induction l as [|k l IH]; simpl; auto.
  rewrite IH. f_equal.
  destruct (const_eqb x k) eqn:H0, (const_eqb y k) eqn:H1; auto.
  - rewrite const_eqb_sym in Hxy.
    rewrite (const_eqb_trans _ _ _ Hxy H0) in H1. discriminate.
  - rewrite (const_eqb_trans _ _ _ Hxy H1) in H0. discriminate.
Qed.

Lemma name_in_filter_sub (k : constant) (p : constant -> bool) (l : list constant) :
  name_in k l = false -> name_in k (filter p l) = false.
Proof.
  intros H. destruct (name_in k (filter p l)) eqn:Hf; auto.
  apply name_in_filter in Hf. destruct Hf as (x & Hin & _ & Hk).
  unfold name_in in H. rewrite <- H. symmetry. apply existsb_exists. eauto.
Qed.

Lemma filter_distinct (p : constant -> bool) (l : list constant) :
  distinct_names l -> distinct_names (filter p l).
Proof.
  induction l as [|k l IH]; simpl; auto.
  intros [Hk Hl]. destruct (p k); simpl; auto.
  split; auto. now apply name_in_filter_sub.
Qed.

Lemma app_distinct (a b : list constant) :
  distinct_names a -> distinct_names b ->
  (forall x, In x a -> name_in x b = false) ->
  distinct_names (a ++ b).
Proof.
  induction a as [|k a IH]; simpl; auto.
  intros [Hk Ha] Hb Hcross. split.
  - rewrite name_in_app, Hk. simpl. apply Hcross. now left.
  - apply IH; auto.
Qed.

Lemma keys_distinct {V : Type} (m : opmap V) : distinct_keys m -> distinct_names (op_keys m).
Proof.
  induction m as [|[k v] m IH]; simpl; auto.
  intros [Hk Hm]. split; auto.
  change (map fst m) with (op_keys m). now rewrite name_in_keys.
Qed.

(** X11.  A name is reported once: when the names of the current mapping
    are pairwise different, so are the names that the differ returns, and
    each of them is a name of the current mapping. *)
Theorem new_operations_are_distinct :
  forall (previous : opmap (dict constant)) (current : opmap OperationInfo),
    distinct_keys current ->
    distinct_names (new_operations previous current)
    /\ forall k, In k (new_operations previous current) -> In k (op_keys current).
Proof.
  intros previous current Hd. pose proof (keys_distinct current Hd) as Hkeys.
  unfold new_operations, set_difference, set_intersection. split.
  - apply app_distinct.
    + now apply filter_distinct.
    + now repeat apply filter_distinct.
    + intros x Hx. apply filter_In in Hx. destruct Hx as [_ Hx].
      apply negb_true_iff in Hx.
      match goal with |- name_in x ?l = false => destruct (name_in x l) eqn:Hf end; auto.
      apply name_in_filter in Hf. destruct Hf as (y & Hy & _ & Hxy).
      apply filter_In in Hy. destruct Hy as [_ Hy].
      rewrite (name_in_equiv x y _ Hxy) in Hx. congruence.
  - intros k Hk. apply in_app_or in Hk. destruct Hk as [Hk|Hk].
    + apply filter_In in Hk. tauto.
    + apply filter_In in Hk. destruct Hk as [Hk _]. apply filter_In in Hk. tauto.
Qed.

Lemma new_operations_are_distinct_witness :
  distinct_names (new_operations (Demo.previous_snapshot [("A", "src1")])
                                 (Demo.snapshot [("A", "src2"); ("B", "src3")]))
  /\ forall k,
       In k (new_operations (Demo.previous_snapshot [("A", "src1")])
                            (Demo.snapshot [("A", "src2"); ("B", "src3")])) ->
       In k (op_keys (Demo.snapshot [("A", "src2"); ("B", "src3")])).
Proof.
  apply new_operations_are_distinct. simpl. auto.
Defined.

(** ** From a scanned operation to the text of its suite *)

Lemma filter_map_commute {A B : Type} (f : A -> B) (p : B -> bool) (q : A -> bool)
    (l : list A) :
  (forall a, p (f a) = q a) -> filter p (map f l) = map f (filter q l).
Proof.
  intros H. induction l as [|a l IH]; simpl; auto.
  rewrite H, IH. now destruct (q a).
Qed.

Lemma to_dict_args (op_info : OperationInfo) :
  py_iter (args_of (to_dict op_info)) = Ok (map VDict (map arg_to_dict (args op_info))).
Proof. unfold args_of, to_dict. simpl. now rewrite map_map. Qed.

Lemma arg_to_dict_required (a : OperationArg) : required_flag (arg_to_dict a) = required a.
Proof. unfold required_flag, arg_to_dict. simpl. reflexivity. Qed.

Lemma arg_to_dict_int (a : OperationArg) :
  is_int_arg (arg_to_dict a) = String.eqb (arg_type a) "int".
Proof. unfold is_int_arg, arg_to_dict. simpl. reflexivity. Qed.

Lemma to_dict_segments (rt : Runtime) (op_info : OperationInfo) :
  generate_segments rt (to_dict op_info)
  = Ok (template_segments rt (VConst (op_name op_info))
          (map arg_to_dict (args op_info))
          (map arg_to_dict (filter required (args op_info)))
          (map arg_to_dict (filter (fun a => negb (required a)) (args op_info)))).
Proof.
  rewrite (generate_segments_dicts rt (to_dict op_info) (map arg_to_dict (args op_info))
             (to_dict_args op_info)).
  rewrite (filter_map_commute arg_to_dict required_flag required _ arg_to_dict_required).
  rewrite (filter_map_commute arg_to_dict (fun a => negb (required_flag a))
             (fun a => negb (required a)) _
             (fun a => f_equal negb (arg_to_dict_required a))).
  reflexivity.
Qed.

(** X12.  The generator never fails on what the scanner produces: for
    every [OperationInfo], [generate] on its [to_dict()] returns a suite,
    with 6 test cases, one more per argument that is not required, three
    more per required argument and two more per argument of type [int];
    when all arguments are required, as the registry extraction leaves
    them, that is 6 + 3 * (number of arguments) + 2 * (number of [int]
    arguments). *)
Theorem scanned_operation_always_renders :
  forall (rt : Runtime) (op_info : OperationInfo),
    exists text cases,
      generate rt (to_dict op_info) = Ok text
      /\ generate_cases rt (to_dict op_info) = Ok cases
      /\ List.length cases
         = 6 + List.length (filter (fun a => negb (required a)) (args op_info))
           + 3 * List.length (filter required (args op_info))
           + 2 * List.length (filter (fun a => String.eqb (arg_type a) "int") (args op_info))
      /\ (Forall (fun a => required a = true) (args op_info) ->
          List.length cases
          = 6 + 3 * List.length (args op_info)
            + 2 * List.length (filter (fun a => String.eqb (arg_type a) "int")
                                      (args op_info))).
Proof.
  intros rt op_info.
  pose proof (to_dict_segments rt op_info) as Hsegs.
  unfold generate, generate_cases. rewrite Hsegs. cbn [bind].
  eexists. eexists. split; [reflexivity|]. split; [reflexivity|].
  rewrite template_case_count, !length_map.
  rewrite (filter_map_commute arg_to_dict is_int_arg
             (fun a => String.eqb (arg_type a) "int") _ arg_to_dict_int), length_map.
  split; [lia|].
  intros Hall.
  assert (Hreq : filter required (args op_info) = args op_info).
  { clear -Hall. induction Hall as [|a l Ha _ IH]; simpl; auto. now rewrite Ha, IH. }
  assert (Hopt : filter (fun a => negb (required a)) (args op_info) = []).
  { clear -Hall. induction Hall as [|a l Ha _ IH]; simpl; auto. now rewrite Ha. }
  rewrite Hreq, Hopt. simpl. lia.
Qed.

Lemma scanned_operation_always_renders_witness :
  exists text cases,
    generate ascii_runtime (to_dict Demo.merged_deploy_operation) = Ok text
    /\ generate_cases ascii_runtime (to_dict Demo.merged_deploy_operation) = Ok cases
    /\ List.length cases = 6 + 3 * 2 + 2 * 1.
Proof.
  destruct (scanned_operation_always_renders ascii_runtime Demo.merged_deploy_operation)
    as (text & cases & Htext & Hcases & _ & Hall).
  exists text, cases. split; [exact Htext|]. split; [exact Hcases|].
  apply Hall. vm_compute. repeat constructor.
Defined.


(** ** Writing the test file of one operation *)




(** ** Generating for a list of names *)

Section Batch.

Variable rt : Runtime.
Variable strip : string -> string.
Variable client : llm_client.
Variable can_write : string -> bool.
Variable output_dir : string.
Variable scan_results : opmap OperationInfo.

Hypothesis writable : forall path, can_write path = true.



End Batch.












End PipelineExtras.

(* ===================================================================== *)
(** * Properties of the generated suite and of the answer of the model *)
(* ===================================================================== *)

Module SuiteExtras.
Import Py Template Scanner Orchestrator Generation.
Import TemplateFacts.
Local Open Scope list_scope.

(** ** Code fences around the answer of the model *)

Lemma split_lines_nonempty (s : string) : split_lines s <> [].
Proof.
  destruct s as [|c rest]; simpl; [discriminate|].
  destruct (Ascii.eqb c (ascii_of_nat 10)); [discriminate|].
  destruct (split_lines rest); discriminate.
Qed.

Lemma split_lines_app (a b : string) :
  split_lines (a ++ nl ++ b)%string = split_lines a ++ split_lines b.
Proof.
  induction a as [|c a IH].
  - reflexivity.
  - cbn [append split_lines]. destruct (Ascii.eqb c (ascii_of_nat 10)).
    + now rewrite IH.
    + rewrite IH. destruct (split_lines a) as [|line more] eqn:Ha.
      * now apply split_lines_nonempty in Ha.
      * reflexivity.
Qed.

Lemma split_lines_single (s : string) : single_line s = true -> split_lines s = [s].
Proof.
  induction s as [|c rest IH]; [reflexivity|].
  cbn [single_line split_lines]. intros H. apply andb_prop in H. destruct H as [Hc Hrest].
  apply negb_true_iff in Hc. rewrite Hc, (IH Hrest). reflexivity.
Qed.

Lemma join_split (s : string) : join_lines (split_lines s) = s.
Proof.
  unfold join_lines. induction s as [|c rest IH]; [reflexivity|].
  cbn [split_lines]. destruct (Ascii.eqb c (ascii_of_nat 10)) eqn:Hc.
  - apply Ascii.eqb_eq in Hc. subst c.
    destruct (split_lines rest) as [|line more] eqn:Hr;
      [now apply split_lines_nonempty in Hr|].
    change (String.concat nl ("" :: line :: more))%string
      with (String (ascii_of_nat 10) (String.concat nl (line :: more))).
    now rewrite IH.
  - destruct (split_lines rest) as [|line more] eqn:Hr;
      [now apply split_lines_nonempty in Hr|].
    destruct more as [|line' more]; cbn [String.concat append] in *; now rewrite IH.
Qed.

Lemma startswith_fence (rest : string) : startswith fence (fence ++ rest)%string = true.
Proof. unfold startswith, fence. destruct rest; reflexivity. Qed.

Lemma single_line_fence (lang : string) :
  single_line lang = true -> single_line (fence ++ lang)%string = true.
Proof. intros H. unfold fence. cbn [append single_line]. now rewrite H. Qed.

Lemma opening_fence_is_dropped (lang rest : string) :
  single_line lang = true ->
  match split_lines (fence ++ lang ++ nl ++ rest)%string with
  | first :: others =>
      if startswith fence first then others
      else split_lines (fence ++ lang ++ nl ++ rest)%string
  | [] => split_lines (fence ++ lang ++ nl ++ rest)%string
  end = split_lines rest.
Proof.
  intros Hl.
  change (fence ++ lang ++ nl ++ rest)%string with ((fence ++ lang) ++ nl ++ rest)%string.
  rewrite split_lines_app, (@split_lines_single _ (@single_line_fence lang Hl)).
  cbn [app]. now rewrite startswith_fence.
Qed.

Lemma closing_fence_is_dropped (strip : string -> string) (l : list string) (close : string) :
  strip close = fence ->
  match l ++ [close] with
  | [] => l ++ [close]
  | _ :: _ =>
      if String.eqb (strip (last (l ++ [close]) "")) fence
      then removelast (l ++ [close]) else l ++ [close]
  end = l.
Proof.
  intros Hs. rewrite last_last, removelast_last, Hs, String.eqb_refl.
  destruct (l ++ [close]) eqn:E; [|reflexivity].
  apply app_eq_nil in E. destruct E as [_ E]. discriminate.
Qed.

(** X17.  A fenced answer is unwrapped: when the model answers with an
    opening fence line (three backquotes and an optional language), a body,
    and a last line that is three backquotes up to surrounding white space,
    [generate_tests] returns the body, stripped. *)
Theorem fenced_answer_is_unwrapped :
  forall (rt : Runtime) (strip : string -> string)
         (complete : dict pyval -> result (option string)) (info : dict pyval)
         (lang body close : string),
    complete info = Ok (Some (fence ++ lang ++ nl ++ body ++ nl ++ close)%string) ->
    single_line lang = true ->
    single_line close = true ->
    strip close = fence ->
    generate_tests rt strip (LLMClient complete) info = Ok (strip body).
Proof.
  intros rt strip complete info lang body close Hanswer Hl Hc Hs.
  unfold generate_tests. rewrite Hanswer. cbn [bind].
  unfold strip_code_fences. rewrite startswith_fence.
  cbv zeta. rewrite (@opening_fence_is_dropped lang _ Hl).
  rewrite split_lines_app, (@split_lines_single close Hc).
  rewrite (@closing_fence_is_dropped strip _ close Hs).
  now rewrite join_split.
Qed.

Lemma fenced_answer_is_unwrapped_witness :
  generate_tests ascii_runtime ascii_strip
    (LLMClient (fun _ => Ok (Some (fence ++ "robot" ++ nl ++ "*** Settings ***" ++ nl ++ "``` ")%string)))
    Template.deploy
  = Ok (ascii_strip "*** Settings ***").
Proof.
  apply (@fenced_answer_is_unwrapped ascii_runtime ascii_strip
           (fun _ => Ok (Some (fence ++ "robot" ++ nl ++ "*** Settings ***" ++ nl ++ "``` ")%string))
           Template.deploy "robot" "*** Settings ***" "``` ");
    vm_compute; reflexivity.
Defined.

(** X18.  An answer that opens a fence and never closes it (the last line is
    not three backquotes) loses its first line only: [generate_tests]
    returns everything after the opening fence line, stripped. *)
Theorem unterminated_fence_keeps_body :
  forall (rt : Runtime) (strip : string -> string)
         (complete : dict pyval -> result (option string)) (info : dict pyval)
         (lang body : string),
    complete info = Ok (Some (fence ++ lang ++ nl ++ body)%string) ->
    single_line lang = true ->
    String.eqb (strip (last (split_lines body) "")) fence = false ->
    generate_tests rt strip (LLMClient complete) info = Ok (strip body).
Proof.
  intros rt strip complete info lang body Hanswer Hl Hlast.
  unfold generate_tests. rewrite Hanswer. cbn [bind].
  unfold strip_code_fences. rewrite startswith_fence.
  cbv zeta. rewrite (@opening_fence_is_dropped lang _ Hl).
  rewrite Hlast.
  destruct (split_lines body) eqn:E; [now apply split_lines_nonempty in E|].
  rewrite <- E. now rewrite join_split.
Qed.

Lemma unterminated_fence_keeps_body_witness :
  generate_tests ascii_runtime ascii_strip
    (LLMClient (fun _ => Ok (Some (fence ++ "robot" ++ nl ++ "*** Settings ***" ++ nl ++ "Library    Process")%string)))
    Template.deploy
  = Ok (ascii_strip ("*** Settings ***" ++ nl ++ "Library    Process")%string).
Proof.
  apply (@unterminated_fence_keeps_body ascii_runtime ascii_strip
           (fun _ => Ok (Some (fence ++ "robot" ++ nl ++ "*** Settings ***" ++ nl ++ "Library    Process")%string))
           Template.deploy "robot" ("*** Settings ***" ++ nl ++ "Library    Process")%string);
    vm_compute; reflexivity.
Defined.

(** ** The test cases of the generated suite *)

Lemma generate_cases_shape (rt : Runtime) (info : dict pyval) (cases : list TestCase) :
  generate_cases rt info = Ok cases ->
  exists args required_args optional_args,
    cases = cases_of (template_segments rt (name_of info) args required_args optional_args).
Proof.
  unfold generate_cases, generate_segments.
  destruct (py_iter (dict_get_default "args" (VList []) info)) as [items|e];
    [|discriminate].
  cbn [bind]. destruct (required_of items) as [required_args|e]; [|discriminate].
  cbn [bind]. intros H. injection H as <-.
  exists (map (normalize_arg rt) items), (map (normalize_arg rt) required_args),
    (map (normalize_arg rt) (optional_of items)).
  reflexivity.
Qed.

Ltac each_case H :=
  rewrite cases_of_template in H;
  repeat (apply in_app_or in H; destruct H as [H|H]);
  repeat match type of H with
         | In _ (map _ _) => apply in_map_iff in H; destruct H as [? [<- ?]]
         | In _ (flat_map _ _) => apply in_flat_map in H; destruct H as [? [? H]]
         | In _ (_ :: _) => destruct H as [<-|H]
         | In _ [] => destruct H
         end.

(** X19.  Every test case of a generated suite carries the lower-cased name
    of the operation as its last tag, after at least one other tag, and the
    other tags are among the category tags smoke, positive, negative,
    edge_case and dry_run. *)
Theorem every_case_is_tagged :
  forall (rt : Runtime) (info : dict pyval) (cases : list TestCase),
    generate_cases rt info = Ok cases ->
    Forall (fun tc =>
              last (tags tc) "" = lower_name rt (name_of info)
              /\ removelast (tags tc) <> []
              /\ incl (removelast (tags tc)) categories)
           cases.
Proof.
  intros rt info cases Hgen.
  destruct (generate_cases_shape rt info Hgen) as (args & required_args & optional_args & ->).
  apply Forall_forall. intros tc Htc.
  each_case Htc;
    (split; [reflexivity|]; split; [discriminate|]);
    intros t Ht; cbn in Ht; unfold categories; cbn; tauto.
Qed.

Lemma every_case_is_tagged_witness :
  Forall (fun tc =>
            last (tags tc) "" = lower_name ascii_runtime (name_of Template.deploy)
            /\ removelast (tags tc) <> []
            /\ incl (removelast (tags tc)) categories)
         (cases_of (template_segments ascii_runtime (name_of Template.deploy)
                      deploy_args (filter required_flag deploy_args)
                      (filter (fun a => negb (required_flag a)) deploy_args))).
Proof.
  apply (@every_case_is_tagged ascii_runtime Template.deploy). vm_compute. reflexivity.
Defined.

Lemma last_of_app {A : Type} (l1 l2 : list A) (d : A) :
  l2 <> [] -> last (l1 ++ l2) d = last l2 d.
Proof.
  intros Hne. induction l1 as [|x l1 IH]; [reflexivity|].
  cbn [app last]. rewrite IH. destruct (l1 ++ l2) eqn:E; [|reflexivity].
  apply app_eq_nil in E. destruct E as [_ E]. contradiction.
Qed.

(** X20.  A generated test case that expects return code 0 never runs the
    operation for real: its command line ends with [--dry-run], or it is
    [run --help]. *)
Theorem success_is_expected_of_dry_runs_only :
  forall (rt : Runtime) (info : dict pyval) (cases : list TestCase),
    generate_cases rt info = Ok cases ->
    Forall (fun tc =>
              In rc_is_zero (checks tc) ->
              last (invocation tc) "" = "--dry-run"
              \/ invocation tc = ["run"; "--help"])
           cases.
Proof.
  intros rt info cases Hgen.
  destruct (generate_cases_shape rt info Hgen) as (args & required_args & optional_args & ->).
  apply Forall_forall. intros tc Htc.
  each_case Htc; intros Hrc;
    try (left; cbn [invocation smoke_test dry_run_test timeout_test optional_arg_test];
         rewrite !last_of_app
           by (first [discriminate
                     | let E := fresh in
                       intro E; apply app_eq_nil in E; destruct E as [_ E]; discriminate E]);
         reflexivity);
    try (right; reflexivity);
    exfalso; cbn in Hrc;
    repeat (destruct Hrc as [Hrc|Hrc]; [discriminate Hrc|]); exact Hrc.
Qed.

Lemma success_is_expected_of_dry_runs_only_witness :
  Forall (fun tc =>
            In rc_is_zero (checks tc) ->
            last (invocation tc) "" = "--dry-run"
            \/ invocation tc = ["run"; "--help"])
         (cases_of (template_segments ascii_runtime (name_of Template.deploy)
                      deploy_args (filter required_flag deploy_args)
                      (filter (fun a => negb (required_flag a)) deploy_args))).
Proof.
  apply (@success_is_expected_of_dry_runs_only ascii_runtime Template.deploy).
  vm_compute. reflexivity.
Defined.

(** ** Titles *)

Lemma append_cancel (p a b : string) : (p ++ a)%string = (p ++ b)%string -> a = b.
Proof.
  induction p as [|c p IH]; cbn [append]; intros H; [exact H|].
  injection H as H. now apply IH.
Qed.

Lemma NoDup_app_intro {A : Type} (l1 l2 : list A) :
  NoDup l1 -> NoDup l2 -> (forall x, In x l1 -> In x l2 -> False) -> NoDup (l1 ++ l2).
Proof.
  intros H1 H2 Hdis. induction H1 as [|x l1 Hx H1 IH]; [exact H2|].
  cbn [app]. constructor.
  - intros Hin. apply in_app_or in Hin. destruct Hin as [Hin|Hin]; [now apply Hx|].
    apply (Hdis x); [now left | exact Hin].
  - apply IH. intros y Hy. apply Hdis. now right.
Qed.

(** The arguments that a loop of the template selects keep different names. *)
Lemma selected_names_differ (rt : Runtime) (keep : dict pyval -> bool)
    (args : list (dict pyval)) :
  NoDup (map (printed_name rt) args) ->
  NoDup (map (printed_name rt) (filter keep args)).
Proof.
  intros Hnames. induction args as [|arg args IH]; [constructor|].
  cbn [map] in Hnames. apply NoDup_cons_iff in Hnames. destruct Hnames as [Hfresh Hrest].
  cbn [filter]. destruct (keep arg); [|exact (IH Hrest)].
  cbn [map]. apply NoDup_cons; [|exact (IH Hrest)].
  intros Hin. apply Hfresh.
  apply in_map_iff in Hin. destruct Hin as [other [Hname Hother]].
  apply filter_In in Hother. rewrite <- Hname. apply in_map. tauto.
Qed.

Lemma NoDup_prefixed {A : Type} (p q : string) (n : A -> string) (l : list A) :
  NoDup (map n l) -> NoDup (map (fun a => (p ++ q ++ n a)%string) l).
Proof.
  induction l as [|x l IH]; cbn [map]; intros H; [constructor|].
  inversion H as [|y l' Hx Hl]; subst. constructor; [|now apply IH].
  intros Hin. apply Hx. apply in_map_iff in Hin. destruct Hin as [y [Hy Hin]].
  apply append_cancel in Hy. apply append_cancel in Hy. rewrite <- Hy. now apply in_map.
Qed.

Lemma NoDup_prefixed_pairs {A : Type} (p q1 q2 : string) (n : A -> string) (l : list A) :
  (forall x y, (q1 ++ x)%string <> (q2 ++ y)%string) ->
  NoDup (map n l) ->
  NoDup (flat_map (fun a => [(p ++ q1 ++ n a)%string; (p ++ q2 ++ n a)%string]) l).
Proof.
  intros Hq. induction l as [|x l IH]; cbn [map flat_map app]; intros H; [constructor|].
  inversion H as [|y l' Hx Hl]; subst.
  assert (Hfresh : forall q, ~ In (p ++ q ++ n x)%string
                               (flat_map (fun a => [(p ++ q1 ++ n a)%string;
                                                    (p ++ q2 ++ n a)%string]) l)
                             \/ q <> q1 /\ q <> q2).
  { intros q. destruct (string_dec q q1) as [->|Hq1].
    - left. intros Hin. apply in_flat_map in Hin. destruct Hin as [y [Hy [E|[E|[]]]]].
      + apply append_cancel in E. apply append_cancel in E.
        apply Hx. rewrite <- E. now apply in_map.
      + apply append_cancel in E. symmetry in E. now apply Hq in E.
    - destruct (string_dec q q2) as [->|Hq2]; [|now right].
      left. intros Hin. apply in_flat_map in Hin. destruct Hin as [y [Hy [E|[E|[]]]]].
      + apply append_cancel in E. now apply Hq in E.
      + apply append_cancel in E. apply append_cancel in E.
        apply Hx. rewrite <- E. now apply in_map. }
  constructor.
  - intros [E|Hin].
    + apply append_cancel in E. symmetry in E. now apply Hq in E.
    + destruct (Hfresh q1) as [Hf|[Hf _]]; [now apply Hf | now apply Hf].
  - constructor; [|now apply IH].
    intros Hin. destruct (Hfresh q2) as [Hf|[_ Hf]]; [now apply Hf | now apply Hf].
Qed.

Lemma map_title_pairs {A : Type} (f g : A -> TestCase) (l : list A) :
  map title (flat_map (fun a => [f a; g a]) l)
  = flat_map (fun a => [title (f a); title (g a)]) l.
Proof. induction l as [|x l IH]; cbn [flat_map map app]; [reflexivity|]. now rewrite IH. Qed.

(** The titles of the template, in order. *)
Lemma titles_of_template (rt : Runtime) (op_name : pyval)
    (args required_args optional_args : list (dict pyval)) :
  map title (cases_of (template_segments rt op_name args required_args optional_args))
  = [(py_str rt op_name ++ " Smoke Test")%string;
     (py_str rt op_name ++ " With Dry Run Flag")%string;
     (py_str rt op_name ++ " With Custom Timeout")%string]
    ++ map (fun a => (py_str rt op_name ++ " With Optional Arg " ++ printed_name rt a)%string)
           optional_args
    ++ map (fun a => (py_str rt op_name ++ " Fails Without Required Arg "
                        ++ printed_name rt a)%string)
           required_args
    ++ [(py_str rt op_name ++ " Fails With Unknown Operation Name")%string;
        (py_str rt op_name ++ " Fails With Empty Operation Name")%string]
    ++ map (fun a => (py_str rt op_name ++ " Fails With Empty Value For "
                        ++ printed_name rt a)%string)
           required_args
    ++ flat_map (fun a => [(py_str rt op_name ++ " Fails With Non Numeric "
                              ++ printed_name rt a)%string;
                           (py_str rt op_name ++ " Fails With Negative "
                              ++ printed_name rt a)%string])
                (filter is_int_arg args)
    ++ map (fun a => (py_str rt op_name ++ " With Special Characters In "
                        ++ printed_name rt a)%string)
           required_args
    ++ [(py_str rt op_name ++ " Help Flag")%string].
Proof.
  rewrite cases_of_template.
  rewrite !map_app, !map_map, map_title_pairs. reflexivity.
Qed.

(** Two titles of different blocks of the template differ. *)
Ltac title_source H :=
  match type of H with
  | In _ (map _ _) => apply in_map_iff in H; destruct H as [? [H _]]
  | In _ (flat_map _ _) =>
      apply in_flat_map in H; destruct H as [? [_ H]]; destruct H as [H|[H|[]]]
  | In _ [_] => destruct H as [H|[]]
  | In _ [_; _] => destruct H as [H|[H|[]]]
  | In _ [_; _; _] => destruct H as [H|[H|[H|[]]]]
  end.

Ltac other_block H1 H2 :=
  repeat (apply in_app_or in H2; destruct H2 as [H2|H2]);
  title_source H1; title_source H2;
  rewrite <- H1 in H2; apply append_cancel in H2;
  cbn [append] in H2; discriminate H2.

Lemma titles_are_distinct (rt : Runtime) (op_name : pyval)
    (args required_args optional_args : list (dict pyval)) :
  NoDup (map (printed_name rt) required_args) ->
  NoDup (map (printed_name rt) optional_args) ->
  NoDup (map (printed_name rt) (filter is_int_arg args)) ->
  NoDup (map title (cases_of (template_segments rt op_name args required_args optional_args))).
Proof.
  intros Hreq Hopt Hint. rewrite titles_of_template.
  apply NoDup_app_intro.
  { repeat constructor; cbn [In]; intros H;
      repeat (destruct H as [H|H]; [apply append_cancel in H; discriminate H|]); exact H. }
  2: { intros x H1 H2. other_block H1 H2. }
  apply NoDup_app_intro; [now apply NoDup_prefixed| |intros x H1 H2; other_block H1 H2].
  apply NoDup_app_intro; [now apply NoDup_prefixed| |intros x H1 H2; other_block H1 H2].
  apply NoDup_app_intro.
  { repeat constructor; cbn [In]; intros H;
      repeat (destruct H as [H|H]; [apply append_cancel in H; discriminate H|]); exact H. }
  2: { intros x H1 H2. other_block H1 H2. }
  apply NoDup_app_intro; [now apply NoDup_prefixed| |intros x H1 H2; other_block H1 H2].
  apply NoDup_app_intro; [| |intros x H1 H2; other_block H1 H2].
  { apply NoDup_prefixed_pairs; [|exact Hint].
    intros x y E. cbn [append] in E. discriminate E. }
  apply NoDup_app_intro; [now apply NoDup_prefixed| |intros x H1 H2; other_block H1 H2].
  repeat constructor. intros [].
Qed.

(** X21.  When the arguments of an operation are dictionaries whose names
    print differently from one another, the test cases of the generated
    suite have pairwise different titles. *)
Theorem distinct_arguments_give_distinct_titles :
  forall (rt : Runtime) (info : dict pyval) (args : list (dict pyval)),
    py_iter (args_of info) = Ok (map VDict args) ->
    NoDup (map (printed_name rt) args) ->
    exists cases,
      generate_cases rt info = Ok cases /\ NoDup (map title cases).
Proof.
  intros rt info args Hiter Hnames.
  exists (cases_of (template_segments rt (name_of info) args
                      (filter required_flag args)
                      (filter (fun a => negb (required_flag a)) args))).
  split.
  - unfold generate_cases. now rewrite (generate_segments_dicts rt info args Hiter).
  - apply titles_are_distinct; now apply selected_names_differ.
Qed.

Lemma distinct_arguments_give_distinct_titles_witness :
  exists cases,
    generate_cases ascii_runtime Template.deploy = Ok cases /\ NoDup (map title cases).
Proof.
  apply (@distinct_arguments_give_distinct_titles ascii_runtime Template.deploy deploy_args).
  - reflexivity.
  - vm_compute. repeat constructor; cbn [In]; intros H;
      repeat (destruct H as [H|H]; [discriminate H|]); exact H.
Defined.

End SuiteExtras.
